(** * Market attention graph: the collectors' ingestion pipeline

    A shallow embedding of the four collector notebooks (social stream,
    global news, feeds, microblog), of the DuckDB tables they share and of
    the co-mention graph, with the properties of the pipeline stated and
    settled on that embedding.

    Modelling conventions.
    - A Python [str] is a [string]: a sequence of 8-bit characters, read as
      the UTF-8 bytes of the text.  [lower], [upper] and the word
      characters of a regular expression are those of ASCII, which is what
      Python has on ASCII text and only there: a statement that depends on
      them for every text carries the hypothesis [is_ascii].  [encode] is
      the identity on bytes.
    - A DuckDB table is the list of its rows in insertion order; every
      [con.execute] is committed at once (the notebooks never open a
      transaction).
    - Code that may raise runs in a small state-and-exception monad over
      the store. *)

From Stdlib Require Import ZArith Lia Bool List Ascii String.
From stdpp Require Import gmap strings.
Import ListNotations.

Local Open Scope string_scope.

(* ===================================================================== *)
(** * Python strings *)
(* ===================================================================== *)

Module Py.

Definition is_upper (c : ascii) : bool :=
  (65 <=? nat_of_ascii c)%nat && (nat_of_ascii c <=? 90)%nat.

Definition is_lower (c : ascii) : bool :=
  (97 <=? nat_of_ascii c)%nat && (nat_of_ascii c <=? 122)%nat.

Definition is_digit (c : ascii) : bool :=
  (48 <=? nat_of_ascii c)%nat && (nat_of_ascii c <=? 57)%nat.

Definition lower_char (c : ascii) : ascii :=
  if is_upper c then ascii_of_nat (nat_of_ascii c + 32) else c.

Definition upper_char (c : ascii) : ascii :=
  if is_lower c then ascii_of_nat (nat_of_ascii c - 32) else c.

(** [s.lower()] and [s.upper()] on ASCII text: each letter is mapped by
    itself and the other characters are kept. *)
Fixpoint lower (s : string) : string :=
  match s with
  | EmptyString => EmptyString
  | String c s' => String (lower_char c) (lower s')
  end.

Fixpoint upper (s : string) : string :=
  match s with
  | EmptyString => EmptyString
  | String c s' => String (upper_char c) (upper s')
  end.

(** [s.startswith(p)]. *)
Fixpoint startswith (p s : string) : bool :=
  match p, s with
  | EmptyString, _ => true
  | String _ _, EmptyString => false
  | String a p', String b s' => Ascii.eqb a b && startswith p' s'
  end.

(** [sub in s]: [sub] starts at some offset of [s]. *)
Fixpoint str_in (sub s : string) : bool :=
  startswith sub s
  || match s with
     | EmptyString => false
     | String _ s' => str_in sub s'
     end.

(** [s.replace(c, "")] for a one-character [c]. *)
Fixpoint remove_char (c : ascii) (s : string) : string :=
  match s with
  | EmptyString => EmptyString
  | String a s' =>
      if Ascii.eqb a c then remove_char c s' else String a (remove_char c s')
  end.

(** [s.rstrip(c)] for a one-character [c]. *)
Fixpoint rstrip_char (c : ascii) (s : string) : string :=
  match s with
  | EmptyString => EmptyString
  | String a s' =>
      match rstrip_char c s' with
      | EmptyString => if Ascii.eqb a c then EmptyString else String a EmptyString
      | r => String a r
      end
  end.

(** Truthiness of a string: [not s] holds of the empty string. *)
Definition truthy (s : string) : bool :=
  match s with EmptyString => false | String _ _ => true end.

(** [sep.join(l)]. *)
Fixpoint join (sep : string) (l : list string) : string :=
  match l with
  | [] => EmptyString
  | [x] => x
  | x :: l' => x ++ sep ++ join sep l'
  end.

(** [f'"{kw}"']: the keyword between double quotes. *)
Definition quoted (kw : string) : string :=
  String (ascii_of_nat 34) (kw ++ String (ascii_of_nat 34) EmptyString).

End Py.

(* ===================================================================== *)
(** * Case-insensitive occurrence, in the words of the specification *)
(* ===================================================================== *)

(** Two characters are the same letter up to case: equal, or one is an
    upper-case ASCII letter and the other its lower-case form. *)
Definition same_ignoring_case (a b : ascii) : Prop :=
  a = b
  \/ (Py.is_upper a = true /\ nat_of_ascii b = nat_of_ascii a + 32)
  \/ (Py.is_upper b = true /\ nat_of_ascii a = nat_of_ascii b + 32).

Inductive equal_ignoring_case : string -> string -> Prop :=
| eic_nil : equal_ignoring_case "" ""
| eic_cons a b s t :
    same_ignoring_case a b -> equal_ignoring_case s t ->
    equal_ignoring_case (String a s) (String b t).

(** [sub] occurs in [s] case-insensitively: some contiguous piece of [s]
    equals [sub] up to the case of its letters. *)
Definition occurs_ignoring_case (sub s : string) : Prop :=
  exists pre mid post,
    s = pre ++ mid ++ post /\ equal_ignoring_case mid sub.

(* ===================================================================== *)
(** * [hashlib.sha256]: SHA-256 (FIPS 180-4) on 32-bit words held in [Z] *)
(* ===================================================================== *)

Module SHA256.
Local Open Scope Z_scope.
Local Open Scope list_scope.

Definition wrap (x : Z) : Z := x mod 2 ^ 32.
Definition add32 (x y : Z) : Z := wrap (x + y).
Definition rotr (n x : Z) : Z :=
  Z.lor (Z.shiftr x n) (wrap (Z.shiftl x (32 - n))).
Definition not32 (x : Z) : Z := Z.lxor x (2 ^ 32 - 1).

Definition Ch (x y z : Z) : Z := Z.lxor (Z.land x y) (Z.land (not32 x) z).
Definition Maj (x y z : Z) : Z :=
  Z.lxor (Z.lxor (Z.land x y) (Z.land x z)) (Z.land y z).
Definition Sigma0 (x : Z) : Z := Z.lxor (Z.lxor (rotr 2 x) (rotr 13 x)) (rotr 22 x).
Definition Sigma1 (x : Z) : Z := Z.lxor (Z.lxor (rotr 6 x) (rotr 11 x)) (rotr 25 x).
Definition sigma0 (x : Z) : Z := Z.lxor (Z.lxor (rotr 7 x) (rotr 18 x)) (Z.shiftr x 3).
Definition sigma1 (x : Z) : Z := Z.lxor (Z.lxor (rotr 17 x) (rotr 19 x)) (Z.shiftr x 10).

(** The first sixty-four primes, 2 to 311. *)
Definition is_prime (n : nat) : bool :=
  List.forallb (fun d => negb (Nat.eqb (Nat.modulo n d) 0)) (List.seq 2 (n - 2)).

Definition primes : list Z :=
  List.map Z.of_nat (List.filter is_prime (List.seq 2 310)).

(** The integer cube root, bit by bit from bit [k - 1] down. *)
Fixpoint cube_root (k : nat) (n x : Z) : Z :=
  match k with
  | O => x
  | S k' =>
      let y := x + 2 ^ Z.of_nat k' in
      cube_root k' n (if y * y * y <=? n then y else x)
  end.

(** The round constants: the first 32 bits of the fractional parts of the
    cube roots of the primes. *)
Definition K : list Z :=
  List.map (fun p => wrap (cube_root 36 (p * 2 ^ 96) 0)) primes.

(** The eight working variables, and the chaining value between blocks. *)
Record regs : Type := Regs { ra : Z; rb : Z; rc : Z; rd : Z; re : Z; rf : Z; rg : Z; rh : Z }.

(** The initial value: the first 32 bits of the fractional parts of the
    square roots of the first eight primes. *)
Definition frac_sqrt (i : nat) : Z :=
  wrap (Z.sqrt (List.nth i primes 0 * 2 ^ 64)).

Definition H0 : regs :=
  Regs (frac_sqrt 0) (frac_sqrt 1) (frac_sqrt 2) (frac_sqrt 3)
       (frac_sqrt 4) (frac_sqrt 5) (frac_sqrt 6) (frac_sqrt 7).

(** Padding: a 1 bit, zero bits up to 56 mod 64 bytes, the bit length on
    eight big-endian bytes. *)
Definition be_bytes (n : nat) (x : Z) : list Z :=
  List.map (fun i => Z.land (Z.shiftr x (8 * Z.of_nat i)) 255) (List.rev (List.seq 0 n)).

Definition pad (msg : list Z) : list Z :=
  let len := Z.of_nat (List.length msg) in
  msg ++ [128] ++ List.repeat 0 (Z.to_nat ((55 - len) mod 64)) ++ be_bytes 8 (8 * len).

Fixpoint words_of_bytes (l : list Z) : list Z :=
  match l with
  | b0 :: b1 :: b2 :: b3 :: l' =>
      (Z.shiftl b0 24 + Z.shiftl b1 16 + Z.shiftl b2 8 + b3) :: words_of_bytes l'
  | _ => []
  end.

(** The message schedule, from a window of the last sixteen words. *)
Fixpoint schedule (n : nat) (window : list Z) : list Z :=
  match n with
  | O => []
  | S n' =>
      let w := add32 (add32 (sigma1 (List.nth 14 window 0)) (List.nth 9 window 0))
                     (add32 (sigma0 (List.nth 1 window 0)) (List.nth 0 window 0)) in
      w :: schedule n' (List.tl window ++ [w])
  end.

Definition round (r : regs) (kw : Z * Z) : regs :=
  let t1 := add32 (add32 (add32 (rh r) (Sigma1 (re r))) (Ch (re r) (rf r) (rg r)))
                  (add32 (fst kw) (snd kw)) in
  let t2 := add32 (Sigma0 (ra r)) (Maj (ra r) (rb r) (rc r)) in
  Regs (add32 t1 t2) (ra r) (rb r) (rc r) (add32 (rd r) t1) (re r) (rf r) (rg r).

Definition compress (h : regs) (block : list Z) : regs :=
  let w16 := words_of_bytes block in
  let w := w16 ++ schedule 48 w16 in
  let r := List.fold_left round (List.combine K w) h in
  Regs (add32 (ra h) (ra r)) (add32 (rb h) (rb r)) (add32 (rc h) (rc r))
       (add32 (rd h) (rd r)) (add32 (re h) (re r)) (add32 (rf h) (rf r))
       (add32 (rg h) (rg r)) (add32 (rh h) (rh r)).

Fixpoint blocks (n : nat) (h : regs) (l : list Z) : regs :=
  match n with
  | O => h
  | S n' => blocks n' (compress h (List.firstn 64 l)) (List.skipn 64 l)
  end.

Definition digest (msg : list Z) : regs :=
  let p := pad msg in blocks (List.length p / 64) H0 p.

Definition hex_digit (n : Z) : ascii :=
  match n with
  | 0 => "0" | 1 => "1" | 2 => "2" | 3 => "3" | 4 => "4" | 5 => "5"
  | 6 => "6" | 7 => "7" | 8 => "8" | 9 => "9" | 10 => "a" | 11 => "b"
  | 12 => "c" | 13 => "d" | 14 => "e" | _ => "f"
  end%char.

Definition nibble (w i : Z) : ascii := hex_digit (Z.land (Z.shiftr w (4 * i)) 15).

Definition hex8 (w : Z) (k : string) : string :=
  String (nibble w 7) (String (nibble w 6) (String (nibble w 5) (String (nibble w 4)
  (String (nibble w 3) (String (nibble w 2) (String (nibble w 1) (String (nibble w 0) k))))))).

(** [.hexdigest()]: the eight words in lower-case hexadecimal. *)
Definition hexdigest (r : regs) : string :=
  hex8 (ra r) (hex8 (rb r) (hex8 (rc r) (hex8 (rd r)
  (hex8 (re r) (hex8 (rf r) (hex8 (rg r) (hex8 (rh r) ""))))))).

(** [text.encode()]: the bytes of the text. *)
Definition encode (text : string) : list Z :=
  List.map (fun c => Z.of_nat (nat_of_ascii c)) (list_ascii_of_string text).

Definition sha256_hex (text : string) : string := hexdigest (digest (encode text)).

End SHA256.

(* ===================================================================== *)
(** * The shared DuckDB file: two tables *)
(* ===================================================================== *)

(** A [TIMESTAMP] value (seconds on the notebook's clock). *)
Definition datetime : Type := Z.

(** [news_articles(article_id TEXT PRIMARY KEY, title TEXT, timestamp TIMESTAMP)] *)
Record article_row : Type := ArticleRow {
  article_id : string;
  title : string;
  timestamp : datetime
}.

(** [ticker_mentions(article_id TEXT, ticker TEXT)]: no key, no constraint. *)
Record mention_row : Type := MentionRow {
  mention_article_id : string;
  ticker : string
}.

Record store : Type := Store {
  news_articles : list article_row;
  ticker_mentions : list mention_row
}.

Definition empty_store : store := Store [] [].

(** Exceptions the collectors raise or meet. *)
Inductive exn : Type :=
| ConstraintException           (* duckdb: primary key violated *)
| KeyError                      (* art["url"] on a dict without that key *)
| ValueError                    (* strptime on a malformed date, fromtimestamp on a year out of range *)
| OverflowError                 (* time.mktime out of range *)
| FeedError                     (* raised while fetching or parsing a feed *)
| TooManyRequests (rate_limit_reset : Z)
| OtherError.

Inductive res (A : Type) : Type :=
| Val (a : A)
| Exc (e : exn).
Arguments Val {A} a.
Arguments Exc {A} e.

(** Computations on a connection: they read and write the store and either
    return a value or raise. *)
Definition M (A : Type) : Type := store -> res A * store.

Definition ret {A} (a : A) : M A := fun s => (Val a, s).
Definition raise {A} (e : exn) : M A := fun s => (Exc e, s).
Definition bind {A B} (m : M A) (k : A -> M B) : M B :=
  fun s => match m s with
           | (Val a, s') => k a s'
           | (Exc e, s') => (Exc e, s')
           end.

Declare Scope db_scope.
Delimit Scope db_scope with db.
Notation "'let!' x ':=' m 'in' k" := (bind m (fun x => k))
  (at level 10, x name, m at level 200, k at level 200) : db_scope.

(** [try: m  except duckdb.ConstraintException: h]. *)
Definition try_except_constraint {A} (m h : M A) : M A :=
  fun s => match m s with
           | (Exc ConstraintException, s') => h s'
           | r => r
           end.

(** [for x in l: body(x)]; an exception leaves the loop. *)
Fixpoint for_each {A} (l : list A) (body : A -> M unit) : M unit :=
  match l with
  | [] => ret tt
  | x :: l' => bind (body x) (fun _ => for_each l' body)
  end.

Definition of_option {A} (e : exn) (o : option A) : M A :=
  match o with Some a => ret a | None => raise e end.

Definition has_article (id : string) (s : store) : bool :=
  List.existsb (fun r => String.eqb (article_id r) id) (news_articles s).

(** [con.execute("INSERT INTO news_articles VALUES (?, ?, ?)", row)]:
    the primary key rejects a second row with the same [article_id]. *)
Definition insert_article (row : article_row) : M unit :=
  fun s =>
    if has_article (article_id row) s
    then (Exc ConstraintException, s)
    else (Val tt, Store (news_articles s ++ [row]) (ticker_mentions s)).

(** [con.execute("INSERT INTO ticker_mentions VALUES (?, ?)", row)]. *)
Definition insert_mention (row : mention_row) : M unit :=
  fun s => (Val tt, Store (news_articles s) (ticker_mentions s ++ [row])).

(** Rows of [news_articles] with a given id, and of [ticker_mentions] with
    a given (id, ticker). *)
Definition article_rows (id : string) (s : store) : list article_row :=
  List.filter (fun r => String.eqb (article_id r) id) (news_articles s).

Definition mention_rows (id tk : string) (s : store) : list mention_row :=
  List.filter (fun r => String.eqb (mention_article_id r) id && String.eqb (ticker r) tk)
              (ticker_mentions s).

(* ===================================================================== *)
(** * The watch-list matcher of the news, feed and microblog collectors *)
(* ===================================================================== *)

(** A watch-list is the [dict] [COMPANY_NAMES], as its items in insertion
    order: (entity name, ticker symbol). *)
Definition watchlist : Type := list (string * string).

Definition entry_matches (text : string) (item : string * string) : bool :=
  Py.str_in (Py.lower (fst item)) (Py.lower text)
  || Py.str_in (Py.lower (snd item)) (Py.lower text).

(** [[tk for name, tk in COMPANY_NAMES.items()
       if name.lower() in title.lower() or tk.lower() in title.lower()]] *)
Definition mentions (names : watchlist) (text : string) : list string :=
  List.map snd (List.filter (entry_matches text) names).

(* ===================================================================== *)
(** * Social stream (Reddit): [stream_posts] *)
(* ===================================================================== *)

Module Reddit.

Definition TICKERS : list string :=
  ["GOOGL"; "AAPL"; "AMZN"; "NVDA"; "MSFT"; "BTC"; "XRP"].

(** [\w] on ASCII text: a letter, a digit or the underscore. *)
Definition is_word (c : ascii) : bool :=
  Py.is_upper c || Py.is_lower c || Py.is_digit c || Ascii.eqb c "_".

Definition is_word_opt (c : option ascii) : bool :=
  match c with Some a => is_word a | None => false end.

(** [\b] between two neighbouring characters (or the ends of the text)
    of ASCII text: exactly one of the two is a word character. *)
Definition boundary (prev next : option ascii) : bool :=
  xorb (is_word_opt prev) (is_word_opt next).

Definition head (s : string) : option ascii :=
  match s with EmptyString => None | String c _ => Some c end.

(** The first [n] characters of [s] if they are all in [A-Z], with the
    last of them and the rest of the text. *)
Fixpoint letters (n : nat) (last : option ascii) (s : string)
  : option (string * option ascii * string) :=
  match n with
  | O => Some (EmptyString, last, s)
  | S n' =>
      match s with
      | String c s' =>
          if Py.is_upper c then
            match letters n' (Some c) s' with
            | Some (w, l, rest) => Some (String c w, l, rest)
            | None => None
            end
          else None
      | EmptyString => None
      end
  end.

(** [[A-Z]{2,5}\b] at the head of [s]: the repetition is greedy, so the
    lengths 5, 4, 3, 2 are tried in that order. *)
Definition match_len (n : nat) (s : string) : option string :=
  match letters n None s with
  | Some (w, l, rest) => if boundary l (head rest) then Some w else None
  | None => None
  end.

Definition match_here (s : string) : option string :=
  match match_len 5 s with
  | Some w => Some w
  | None =>
      match match_len 4 s with
      | Some w => Some w
      | None =>
          match match_len 3 s with
          | Some w => Some w
          | None => match_len 2 s
          end
      end
  end.

(** [re.findall(r"\b[A-Z]{2,5}\b", s)]: scan left to right; after a
    match the scan resumes at its end ([skip] counts the characters of
    the match still to pass). *)
Fixpoint findall_from (prev : option ascii) (skip : nat) (s : string) : list string :=
  match s with
  | EmptyString => []
  | String c s' =>
      match skip with
      | S k => findall_from (Some c) k s'
      | O =>
          if boundary prev (Some c) then
            match match_here s with
            | Some w => w :: findall_from (Some c) (String.length w - 1) s'
            | None => findall_from (Some c) 0 s'
            end
          else findall_from (Some c) 0 s'
      end
  end.

Definition findall (s : string) : list string := findall_from None 0 s.

Definition mem (x : string) (l : list string) : bool :=
  List.existsb (String.eqb x) l.

(** [text = (post.title or "") + " " + (post.selftext or "")]
    [words = set(re.findall(..., text.upper()))]
    [matched = TICKERS & words] *)
Definition matched (post_title post_selftext : string) : list string :=
  let text := post_title ++ " " ++ post_selftext in
  let words := findall (Py.upper text) in
  List.filter (fun t => mem t words) TICKERS.

(** A submission as the stream yields it; [title] and [selftext] may be
    [None]. *)
Record post : Type := Post {
  post_subreddit : string;
  post_title : option string;
  post_selftext : option string;
  post_score : Z;
  post_ups : Z;
  post_downs : Z
}.

(** A row of the data frame of the last version of [stream_posts]. *)
Record row : Type := Row {
  row_subreddit : string;
  row_title : option string;
  row_score : Z;
  row_ups : Z;
  row_downs : Z
}.

Definition row_of (p : post) : row :=
  Row (post_subreddit p) (post_title p) (post_score p) (post_ups p) (post_downs p).

(** The loop of [stream_posts(max_results)] over the posts the stream
    yields: the row is appended, [seen] is incremented, and only then is
    [seen >= max_results] tested. *)
Fixpoint collect (max_results seen : Z) (posts : list post) : list row :=
  match posts with
  | [] => []
  | p :: posts' =>
      let seen' := (seen + 1)%Z in
      row_of p :: (if (seen' >=? max_results)%Z then [] else collect max_results seen' posts')
  end.

Definition stream_posts (max_results : Z) (posts : list post) : list row :=
  collect max_results 0 posts.

End Reddit.

(* ===================================================================== *)
(** * Global news (GDELT): [hash_id], [fetch_news], [save_to_db] *)
(* ===================================================================== *)

Module Gdelt.
Local Open Scope db_scope.

Definition COMPANY_NAMES : watchlist :=
  [("Google", "GOOGL"); ("Apple", "AAPL"); ("Amazon", "AMZN"); ("Nvidia", "NVDA");
   ("Microsoft", "MSFT"); ("Bitcoin", "BTC"); ("Ripple", "XRP")].

(** [hashlib.sha256(text.encode()).hexdigest()] *)
Definition hash_id (text : string) : string :=
  SHA256.hexdigest (SHA256.digest (SHA256.encode text)).

(** An article dict as the API sends it; a key may be missing. *)
Record article : Type := Article {
  art_url : option string;
  art_title : option string;
  art_seendate : option string
}.

(** One answer of the ArtList endpoint whose body is the JSON object
    expected: the HTTP status and the value of the ["articles"] key of
    the body, when it has one. *)
Record response : Type := Response {
  status : Z;
  articles : option (list article)
}.

(** What the request for a page does: [session.get] raises; or an answer
    comes whose body cannot be read as that object, so that
    [resp.json()] or [data.get] raises if the loop comes to them; or an
    answer comes that can be read. *)
Inductive request : Type :=
| GetRaises (e : exn)
| BodyRaises (code : Z) (e : exn)
| Answer (r : response).

(** The pages requested so far and the articles gathered. *)
Record crawl : Type := Crawl {
  requested : list nat;
  all_articles : list article
}.

(** [fetch_news]: [get page] is what the request for [page] of the
    window of this cycle does ([start] and [now] are fixed before the
    loop).  The [while True] loop is run on [fuel]; [None] when the fuel
    runs out before a [break] or an exception. *)
Fixpoint fetch_loop (fuel : nat) (get : nat -> request) (page : nat) (c : crawl)
  : option (res crawl) :=
  match fuel with
  | O => None
  | S fuel' =>
      let c1 := Crawl (requested c ++ [page]) (all_articles c) in
      match get page with
      | GetRaises e => Some (Exc e)
      | BodyRaises code e =>
          if negb (code =? 200)%Z then Some (Val c1) else Some (Exc e)
      | Answer resp =>
          if negb (status resp =? 200)%Z then Some (Val c1)
          else
            let rows := match articles resp with Some l => l | None => [] end in
            let c2 := Crawl (requested c1) (all_articles c1 ++ rows) in
            if (List.length rows <=? 250)%nat then Some (Val c2)
            else fetch_loop fuel' get (S page) c2
      end
  end.

Definition fetch_news (fuel : nat) (get : nat -> request) : option (res crawl) :=
  fetch_loop fuel get 1 (Crawl [] []).

(** [keywords = list(COMPANY_NAMES.keys())] and
    [QUERY = "(" + " OR ".join(f'"{kw}"' for kw in keywords) + ")"],
    for any watch-list. *)
Definition query_of (names : watchlist) : string :=
  "(" ++ Py.join " OR " (List.map Py.quoted (List.map fst names)) ++ ")".

Definition QUERY : string := query_of COMPANY_NAMES.

Section SaveToDb.
(** [datetime.strptime(clean, "%Y%m%d%H%M%S").replace(tzinfo=utc)];
    [None] when it raises [ValueError]. *)
Variable strptime : string -> option datetime.

Definition save_article (art : article) : M unit :=
  let! url := of_option KeyError (art_url art) in
  let id := hash_id url in
  let title := match art_title art with Some t => t | None => "" end in
  match art_seendate art with
  | None => ret tt
  | Some published =>
      if negb (Py.truthy published) then ret tt
      else
        let clean := Py.rstrip_char "Z" (Py.remove_char "T" published) in
        let! ts := of_option ValueError (strptime clean) in
        let found := mentions COMPANY_NAMES title in
        match found with
        | [] => ret tt
        | _ :: _ =>
            let! _ := try_except_constraint
                        (insert_article (ArticleRow id title ts))
                        (ret tt) in
            for_each found (fun tk => insert_mention (MentionRow id tk))
        end
  end.

(** The two [CREATE TABLE IF NOT EXISTS] leave an existing store as it
    is; then the loop over the articles. *)
Definition save_to_db (arts : list article) : M unit :=
  for_each arts save_article.

End SaveToDb.

End Gdelt.

(* ===================================================================== *)
(** * Feeds (RSS): [hash_id], [store_article], [poll_once] *)
(* ===================================================================== *)

Module Rss.
Local Open Scope db_scope.

Definition RSS_FEEDS : list string :=
  [ "https://finance.yahoo.com/rss/";
    "https://www.investing.com/rss/news_301.rss";
    "https://www.cnbc.com/id/100003114/device/rss/rss.html";
    "https://www.marketwatch.com/rss/topstories";
    "https://www.coindesk.com/arc/outboundfeeds/rss/";
    "https://www.bloomberg.com/feed/podcast/etf-report.xml";
    "https://feeds.a.dj.com/rss/RSSMarketsMain.xml";
    "https://www.economist.com/finance-and-economics/rss.xml";
    "https://rss.nytimes.com/services/xml/rss/nyt/Business.xml";
    "https://rss.nytimes.com/services/xml/rss/nyt/Economy.xml" ].

Definition COMPANY_NAMES : watchlist :=
  [("Google", "GOOGL"); ("Apple", "AAPL"); ("Amazon", "AMZN"); ("Nvidia", "NVDA");
   ("Microsoft", "MSFT"); ("Bitcoin", "BTC"); ("XRP", "XRP")].

Definition hash_id (text : string) : string :=
  SHA256.hexdigest (SHA256.digest (SHA256.encode text)).

(** [store_article]: the duplicate is met at the article row, and the
    function returns before the mention rows. *)
Definition store_article (title url : string) (ts : datetime) (found : list string)
  : M unit :=
  let id := hash_id url in
  let! duplicate := try_except_constraint
                      (let! _ := insert_article (ArticleRow id title ts) in ret false)
                      (ret true) in
  if duplicate : bool then ret tt
  else for_each found (fun tk => insert_mention (MentionRow id tk)).

(** [time.struct_time], the fields [time.mktime] reads. *)
Record struct_time : Type := StructTime {
  tm_year : Z; tm_mon : Z; tm_mday : Z; tm_hour : Z; tm_min : Z; tm_sec : Z
}.

(** A feed entry; [getattr] supplies the default of a missing attribute. *)
Record entry : Type := Entry {
  entry_title : option string;
  entry_link : option string;
  published_parsed : option struct_time
}.

(** What [feedparser.parse(url)] does: it raises, or it returns a feed
    with its entries (none for a feed it could not read). *)
Inductive parsed : Type :=
| ParseRaises
| Feed (entries : list entry).

Section PollOnce.
(** [time.mktime]; [None] when it raises [OverflowError]. *)
Variable mktime : struct_time -> option Z.
(** [datetime.fromtimestamp(t, timezone.utc)]; [None] when it raises
    [ValueError], which it does on a [t] that [time.mktime] returned when
    the year of [t] is outside the years a [datetime] has. *)
Variable fromtimestamp : Z -> option datetime.
(** The answer of [feedparser.parse] to each URL during this cycle. *)
Variable parse : string -> parsed.
(** The reading of [datetime.utcnow()]; the clock is taken not to advance
    within one cycle. *)
Variable utcnow : datetime.

(** The body of the loop over [feed.entries]; the result is the
    increment of [count]. *)
Definition poll_entry (e : entry) : M nat :=
  let title := match entry_title e with Some t => t | None => "" end in
  let link := match entry_link e with Some l => l | None => "" end in
  if negb (Py.truthy title) || negb (Py.truthy link) then ret 0
  else
    let! ts := match published_parsed e with
               | Some p =>
                   let! t := of_option OverflowError (mktime p) in
                   of_option ValueError (fromtimestamp t)
               | None => ret utcnow
               end in
    let found := mentions COMPANY_NAMES title in
    match found with
    | [] => ret 0
    | _ :: _ =>
        let! _ := store_article title link ts found in
        ret 1
    end.

Fixpoint poll_entries (l : list entry) (count : nat) : M nat :=
  match l with
  | [] => ret count
  | e :: l' =>
      let! n := poll_entry e in
      poll_entries l' (count + n)
  end.

Definition poll_feed (url : string) (count : nat) : M nat :=
  match parse url with
  | ParseRaises => raise FeedError
  | Feed entries => poll_entries entries count
  end.

Fixpoint poll_feeds (urls : list string) (count : nat) : M nat :=
  match urls with
  | [] => ret count
  | url :: urls' =>
      let! count' := poll_feed url count in
      poll_feeds urls' count'
  end.

Definition poll_once : M nat := poll_feeds RSS_FEEDS 0.

End PollOnce.

End Rss.

(* ===================================================================== *)
(** * Microblog (Twitter): [hash_id], [save_to_db], [poll_twitter] *)
(* ===================================================================== *)

Module Twitter.
Local Open Scope db_scope.

Definition COMPANY_NAMES : watchlist :=
  [("Google", "GOOGL"); ("Apple", "AAPL"); ("Amazon", "AMZN"); ("Nvidia", "NVDA");
   ("Microsoft", "MSFT"); ("Bitcoin", "BTC"); ("Ripple", "XRP")].

Definition MIN_FOLLOWERS : Z := 10000.

Definition hash_id (text : string) : string :=
  SHA256.hexdigest (SHA256.digest (SHA256.encode text)).

(** [QUERY = " OR ".join(f'"{kw}"' for kw in COMPANY_NAMES)], for any
    watch-list. *)
Definition query_of (names : watchlist) : string :=
  Py.join " OR " (List.map Py.quoted (List.map fst names)).

Definition QUERY : string := query_of COMPANY_NAMES.

(** [tw.user]; the attribute [followers_count] may be missing. *)
Record user : Type := User { followers_count : option Z }.

Record tweet : Type := Tweet {
  tw_id : string;
  tw_text : string;
  tw_created_at : string;
  tw_user : user
}.

(** [getattr(tw.user, "followers_count", 0)] *)
Definition followers (tw : tweet) : Z :=
  match followers_count (tw_user tw) with Some n => n | None => 0%Z end.

Definition too_small (tw : tweet) : bool := (followers tw <? MIN_FOLLOWERS)%Z.

Section SaveToDb.
(** [datetime.strptime(tw.created_at, "%a %b %d %H:%M:%S %z %Y")];
    [None] when it raises [ValueError]. *)
Variable strptime : string -> option datetime.

(** The body of the loop over the tweets; the result is the increment
    of [added]. *)
Definition save_tweet (tw : tweet) : M nat :=
  if too_small tw then ret 0
  else
    let tweet_id := hash_id (tw_id tw) in
    let title := tw_text tw in
    let! ts := of_option ValueError (strptime (tw_created_at tw)) in
    let found := mentions COMPANY_NAMES title in
    match found with
    | [] => ret 0
    | _ :: _ =>
        let! duplicate := try_except_constraint
                            (let! _ := insert_article (ArticleRow tweet_id title ts) in
                             ret false)
                            (ret true) in
        if duplicate : bool then ret 0
        else
          let! _ := for_each found (fun tk => insert_mention (MentionRow tweet_id tk)) in
          ret 1
    end.

Fixpoint save_loop (tweets : list tweet) (added : nat) : M nat :=
  match tweets with
  | [] => ret added
  | tw :: tweets' =>
      let! n := save_tweet tw in
      save_loop tweets' (added + n)
  end.

Definition save_to_db (tweets : list tweet) : M nat := save_loop tweets 0.

(** ** The polling loop *)

(** [datetime.fromtimestamp]: the local wall-clock reading, in
    microseconds, of a POSIX time in seconds. *)
Variable fromtimestamp : Z -> Z.

(** One turn of the [while True] loop as the outside world decides it:
    what [latest_tweets] does, and what [datetime.utcnow()] reads (in
    microseconds) if the loop asks. *)
Record turn : Type := Turn {
  fetched : res (list tweet);
  utcnow : Z
}.

(** [max(1, int((reset - datetime.utcnow()).total_seconds()))]:
    [int] truncates towards zero. *)
Definition backoff (rate_limit_reset now : Z) : Z :=
  Z.max 1 (Z.quot (fromtimestamp rate_limit_reset - now) 1000000).

(** What the loop has done so far: the running total and the
    arguments of its calls to [asyncio.sleep], oldest first. *)
Record progress : Type := Progress {
  stored : nat;
  sleeps : list Z
}.

(** [poll_twitter] over the turns of a run.  The loop has no exit of
    its own: it ends by an exception, or it is still running when the
    turns observed are over (and the progress so far is returned). *)
Fixpoint poll_loop (interval_seconds : Z) (turns : list turn) (p : progress)
  : M progress :=
  match turns with
  | [] => ret p
  | t :: turns' =>
      match fetched t with
      | Exc (TooManyRequests rate_limit_reset) =>
          let wait := backoff rate_limit_reset (utcnow t) in
          poll_loop interval_seconds turns' (Progress (stored p) (sleeps p ++ [wait]))
      | Exc e => raise e
      | Val [] =>
          poll_loop interval_seconds turns'
                    (Progress (stored p) (sleeps p ++ [interval_seconds]))
      | Val tweets =>
          let! n := save_to_db tweets in
          poll_loop interval_seconds turns'
                    (Progress (stored p + n) (sleeps p ++ [interval_seconds]))
      end
  end.

Definition poll_twitter (interval_seconds : Z) (turns : list turn) : M progress :=
  poll_loop interval_seconds turns (Progress 0 []).

End SaveToDb.

End Twitter.

(* ===================================================================== *)
(** * The attention graph builder *)
(* ===================================================================== *)

Module Graph.

(** Modelled from the spec: the Attention Graph Builder ([build], section
    4.5) is part of the dashboard and not among the collector notebooks.
    An edge is keyed by the unordered pair of its tickers, here the set
    of the two; the graph maps an edge to its weight, an absent edge
    weighing 0.  An event adds one unit to the edge of every unordered
    pair of its matched tickers. *)
Definition pairs_from (a : string) (l : list string) : list (gset string) :=
  (fun b => {[a; b]}) <$> l.

Fixpoint unordered_pairs (l : list string) : list (gset string) :=
  match l with
  | [] => []
  | a :: l' => (pairs_from a l' ++ unordered_pairs l')%list
  end.

Definition increment (e : gset string) (g : gmap (gset string) nat)
  : gmap (gset string) nat :=
  <[e := S (default 0 (g !! e))]> g.

Definition add_event (tickers : gset string) (g : gmap (gset string) nat)
  : gmap (gset string) nat :=
  foldr increment g (unordered_pairs (elements tickers)).

Definition build (events : list (gset string)) : gmap (gset string) nat :=
  fold_left (fun g tickers => add_event tickers g) events ∅.

Definition weight (g : gmap (gset string) nat) (a b : string) : nat :=
  default 0 (g !! ({[a; b]} : gset string)).

End Graph.

(* ===================================================================== *)
(** * Invariants of the two tables *)
(* ===================================================================== *)

(** The primary key: no two rows of [news_articles] have the same id. *)
Definition ids_unique (s : store) : Prop :=
  NoDup (List.map article_id (news_articles s)).

(** Every row of [ticker_mentions] refers to a row of [news_articles]. *)
Definition mentions_refer (s : store) : Prop :=
  forall m, In m (ticker_mentions s) -> has_article (mention_article_id m) s = true.

(** Every row of [news_articles] has a row of [ticker_mentions]. *)
Definition articles_mentioned (s : store) : Prop :=
  forall r, In r (news_articles s) ->
            exists m, In m (ticker_mentions s) /\ mention_article_id m = article_id r.

(** The two tables fit together. *)
Definition store_integrity (s : store) : Prop :=
  ids_unique s /\ mentions_refer s /\ articles_mentioned s.

(** No (article_id, ticker) row occurs twice. *)
Definition mentions_unique (s : store) : Prop := NoDup (ticker_mentions s).

(** [s'] is [s] with rows appended: nothing deleted, nothing changed. *)
Definition grows (s s' : store) : Prop :=
  exists rows ms,
    news_articles s' = (news_articles s ++ rows)%list
    /\ ticker_mentions s' = (ticker_mentions s ++ ms)%list.

(** Every id known to [s] is known to [s']. *)
Definition covers (s s' : store) : Prop :=
  forall id, has_article id s = true -> has_article id s' = true.

(** The two ways a writer changes the store for one item: a new article
    with the mention rows of its title, or mention rows for an article
    that is already there. *)
Definition fresh_insert (names : watchlist) (s s' : store) : Prop :=
  exists id title0 ts,
    mentions names title0 <> []
    /\ has_article id s = false
    /\ s' = Store (news_articles s ++ [ArticleRow id title0 ts])
                  (ticker_mentions s ++ List.map (MentionRow id) (mentions names title0)).

Definition duplicate_append (names : watchlist) (s s' : store) : Prop :=
  exists id title0,
    mentions names title0 <> []
    /\ has_article id s = true
    /\ s' = Store (news_articles s)
                  (ticker_mentions s ++ List.map (MentionRow id) (mentions names title0)).

Definition writer_step (names : watchlist) (s s' : store) : Prop :=
  fresh_insert names s s' \/ duplicate_append names s s'.

(** The entries of a feed that [poll_once] counts: those with a title, a
    link and a match; and the entries a URL yields in a cycle. *)
Definition rss_entry_counted (e : Rss.entry) : bool :=
  let title0 := match Rss.entry_title e with Some t => t | None => "" end in
  let link := match Rss.entry_link e with Some l => l | None => "" end in
  Py.truthy title0 && Py.truthy link
  && match mentions Rss.COMPANY_NAMES title0 with [] => false | _ :: _ => true end.

(** The timestamp [poll_once] computes for an entry from its
    [published_parsed]; [None] when [time.mktime] or
    [datetime.fromtimestamp] raises. *)
Definition rss_entry_time (mktime : Rss.struct_time -> option Z)
    (fromtimestamp : Z -> option datetime) (now : datetime)
    (published : option Rss.struct_time) : option datetime :=
  match published with
  | Some p => match mktime p with Some t => fromtimestamp t | None => None end
  | None => Some now
  end.

Definition rss_feed_entries (parse : string -> Rss.parsed) (url : string) : list Rss.entry :=
  match parse url with Rss.Feed entries => entries | Rss.ParseRaises => [] end.

(** The articles page [p] contributes to a crawl: those of a 200 answer. *)
Definition gdelt_page_rows (get : nat -> Gdelt.request) (p : nat) : list Gdelt.article :=
  match get p with
  | Gdelt.Answer r =>
      if (Gdelt.status r =? 200)%Z
      then match Gdelt.articles r with Some l => l | None => [] end
      else []
  | _ => []
  end.

(** A page that ends the crawl by a [break]: not a 200, or at most 250
    articles. *)
Definition gdelt_last_page (get : nat -> Gdelt.request) (p : nat) : bool :=
  match get p with
  | Gdelt.Answer r =>
      negb (Gdelt.status r =? 200)%Z
      || (List.length (match Gdelt.articles r with Some l => l | None => [] end) <=? 250)%nat
  | Gdelt.BodyRaises code _ => negb (code =? 200)%Z
  | Gdelt.GetRaises _ => false
  end.

(** A page that ends the crawl by an exception, and the exception: the
    request raises, or the body of a 200 answer cannot be read. *)
Definition gdelt_page_raises (get : nat -> Gdelt.request) (p : nat) : option exn :=
  match get p with
  | Gdelt.GetRaises e => Some e
  | Gdelt.BodyRaises code e => if (code =? 200)%Z then Some e else None
  | Gdelt.Answer _ => None
  end.

(** "The run ended by the duplicate-key exception." *)
Definition is_constraint_exception {A} (r : res A) : bool :=
  match r with
  | Exc ConstraintException => true
  | _ => false
  end.

(** [c in s], and "every character of [s] is in [A-Z]". *)
Fixpoint has_char (c : ascii) (s : string) : bool :=
  match s with
  | EmptyString => false
  | String a s' => Ascii.eqb a c || has_char c s'
  end.

Fixpoint all_upper (s : string) : bool :=
  match s with
  | EmptyString => true
  | String a s' => Py.is_upper a && all_upper s'
  end.

(** [s.isascii()]: every character is below 128.  On such text Python's
    [lower], [upper], [\w] and [\b] are the ASCII ones of this model. *)
Definition is_ascii_char (c : ascii) : bool := (nat_of_ascii c <? 128)%nat.

Fixpoint is_ascii (s : string) : bool :=
  match s with
  | EmptyString => true
  | String c s' => is_ascii_char c && is_ascii s'
  end.

(** Every name and every symbol of a watch-list is ASCII. *)
Definition watchlist_is_ascii (names : watchlist) : bool :=
  List.forallb (fun item => is_ascii (fst item) && is_ascii (snd item)) names.



(* ===================================================================== *)
(** * Sample inputs *)
(* ===================================================================== *)

(** A headline of the global-news source, as the API sends it. *)
Definition apple_article : Gdelt.article :=
  Gdelt.Article (Some "https://example.com/markets/apple-rally")
                (Some "Apple rallies as chip stocks slip")
                (Some "20250714T120000Z").

(** A [strptime] that reads every date as noon of 14 July 2025 (UTC). *)
Definition noon (_ : string) : option datetime := Some 1752494400%Z.

(** The canonical form of a URL in the sense of the specification's
    scenario: the URL without its query string, where tracking parameters
    are. *)
Fixpoint url_without_query (url : string) : string :=
  match url with
  | EmptyString => EmptyString
  | String c url' => if Ascii.eqb c "?" then EmptyString else String c (url_without_query url')
  end.

Definition apple_article_tracked : Gdelt.article :=
  Gdelt.Article (Some "https://example.com/markets/apple-rally?utm_source=rss")
                (Some "Apple rallies as chip stocks slip")
                (Some "20250714T120000Z").

(** A window with more than one page of results: every page the endpoint
    serves is full, 250 articles. *)
Definition full_pages (page : nat) : Gdelt.request :=
  Gdelt.Answer (Gdelt.Response 200 (Some (List.repeat apple_article 250))).

(** A window whose second page comes back as a 200 with a body that is
    not JSON, the first being a page of 251 articles. *)
Definition second_page_unreadable (page : nat) : Gdelt.request :=
  match page with
  | 1 => Gdelt.Answer (Gdelt.Response 200 (Some (List.repeat apple_article 251)))
  | _ => Gdelt.BodyRaises 200 OtherError
  end.

(** [time.mktime] of a day in July 2025, for the examples. *)
Definition mktime_july (p : Rss.struct_time) : option Z :=
  Some (1751328000 + (Rss.tm_mday p - 1) * 86400 + Rss.tm_hour p * 3600
        + Rss.tm_min p * 60 + Rss.tm_sec p)%Z.

(** [time.mktime] on a host whose local time is UTC: the days from
    1 January 1970 to the date, in the proleptic Gregorian calendar (the
    year is counted from March, so that the leap day comes last), and the
    seconds of the day. *)
Definition days_since_epoch (year mon mday : Z) : Z :=
  let y := (if mon <=? 2 then year - 1 else year)%Z in
  let m := ((mon + 9) mod 12)%Z in
  (365 * y + y / 4 - y / 100 + y / 400 + (153 * m + 2) / 5 + mday - 1 - 719468)%Z.

Definition mktime_utc (p : Rss.struct_time) : option Z :=
  Some (days_since_epoch (Rss.tm_year p) (Rss.tm_mon p) (Rss.tm_mday p) * 86400
        + Rss.tm_hour p * 3600 + Rss.tm_min p * 60 + Rss.tm_sec p)%Z.

(** [time.mktime] on a host whose local time is UTC plus [utcoffset]
    seconds: the fields are read as local time. *)
Definition mktime_local (utcoffset : Z) (p : Rss.struct_time) : option Z :=
  match mktime_utc p with
  | Some t => Some (t - utcoffset)%Z
  | None => None
  end.

(** [datetime.fromtimestamp(t, timezone.utc)] on seconds since the epoch:
    it raises outside the years 1 to 9999. *)
Definition fromtimestamp_utc (t : Z) : option datetime :=
  if ((-62135596800 <=? t) && (t <=? 253402300799))%Z then Some t else None.

Definition apple_entry : Rss.entry :=
  Rss.Entry (Some "Apple unveils new chips") (Some "https://example.com/aapl") None.

Definition nvidia_entry : Rss.entry :=
  Rss.Entry (Some "Nvidia tops estimates") (Some "https://example.com/nvda")
            (Some (Rss.StructTime 2025 7 14 12 0 0)).

(** A cycle in which the first feed has a matching headline, the second
    raises while it is parsed, and the third has a matching headline. *)
Definition second_feed_raises (url : string) : Rss.parsed :=
  if String.eqb url "https://finance.yahoo.com/rss/" then Rss.Feed [apple_entry]
  else if String.eqb url "https://www.investing.com/rss/news_301.rss" then Rss.ParseRaises
  else if String.eqb url "https://www.cnbc.com/id/100003114/device/rss/rss.html"
       then Rss.Feed [nvidia_entry]
  else Rss.Feed [].

(** The same cycle when the second feed comes back without entries. *)
Definition second_feed_empty (url : string) : Rss.parsed :=
  if String.eqb url "https://finance.yahoo.com/rss/" then Rss.Feed [apple_entry]
  else if String.eqb url "https://www.cnbc.com/id/100003114/device/rss/rss.html"
       then Rss.Feed [nvidia_entry]
  else Rss.Feed [].

(** A tweet of an account with 25000 followers. *)
Definition bitcoin_tweet : Twitter.tweet :=
  Twitter.Tweet "1944926152071495802" "Bitcoin is not done yet"
                "Tue Jul 15 01:56:34 +0000 2025" (Twitter.User (Some 25000%Z)).

(** A tweet of an account with 9999 followers. *)
Definition small_account_tweet : Twitter.tweet :=
  Twitter.Tweet "1944926152071495803" "Bitcoin to the moon"
                "Tue Jul 15 01:56:35 +0000 2025" (Twitter.User (Some 9999%Z)).

(** A local clock on UTC, in microseconds. *)
Definition utc_clock (t : Z) : Z := (t * 1000000)%Z.

(** [datetime.fromtimestamp(t)] without a time zone, on a host whose local
    time is UTC plus [utcoffset] seconds: the naive local reading of the
    POSIX time [t], in microseconds.  [datetime.utcnow()] reads the naive
    UTC time on every host. *)
Definition local_clock (utcoffset : Z) (t : Z) : Z := ((t + utcoffset) * 1000000)%Z.

(** A [strptime] that reads only the fourteen digits of noon, 14 July
    2025. *)
Definition strict_noon (clean : string) : option datetime :=
  if String.eqb clean "20250714120000" then Some 1752494400%Z else None.

(* ===================================================================== *)
(** * Proof tactics *)
(* ===================================================================== *)

Arguments Gdelt.hash_id : simpl never.
Arguments Rss.hash_id : simpl never.
Arguments Twitter.hash_id : simpl never.
Arguments mentions : simpl never.

(** Membership of a literal in a literal list, and its negation. *)
Ltac in_list := simpl; repeat (first [left; reflexivity | right]); fail.

(** One step of a computation on the store: unfold the monad, keep the
    loops and the lookups folded. *)
Ltac run_db :=
  unfold bind, ret, raise, of_option, try_except_constraint, insert_article;
  cbn -[for_each has_article mentions Gdelt.hash_id Rss.hash_id Twitter.hash_id
        Py.truthy Py.rstrip_char Py.remove_char].

(* ===================================================================== *)
(** * Lemmas on strings *)
(* ===================================================================== *)

Section StringFacts.

Lemma append_cons c s t : String c s ++ t = String c (s ++ t).
Proof. reflexivity. Qed.

Lemma nat_of_ascii_inj a b : nat_of_ascii a = nat_of_ascii b -> a = b.
Proof.
  intros H. rewrite <- (ascii_nat_embedding a), <- (ascii_nat_embedding b).
  now rewrite H.
Qed.

Lemma nat_of_lower_upper c :
  Py.is_upper c = true ->
  nat_of_ascii (Py.lower_char c) = nat_of_ascii c + 32.
Proof.
  intros Hu. unfold Py.lower_char. rewrite Hu.
  unfold Py.is_upper in Hu.
  apply andb_true_iff in Hu as [_ H2]. apply Nat.leb_le in H2.
  apply nat_ascii_embedding. lia.
Qed.

Lemma lower_char_not_upper c :
  Py.is_upper c = false -> Py.lower_char c = c.
Proof. intros H. unfold Py.lower_char. now rewrite H. Qed.

Lemma is_upper_range c :
  Py.is_upper c = true <-> 65 <= nat_of_ascii c <= 90.
Proof.
  unfold Py.is_upper. rewrite andb_true_iff, !Nat.leb_le. tauto.
Qed.

Lemma is_upper_false_range c :
  Py.is_upper c = false <-> (nat_of_ascii c < 65 \/ 90 < nat_of_ascii c).
Proof.
  unfold Py.is_upper. rewrite andb_false_iff, !Nat.leb_gt. tauto.
Qed.

(** The code's test (lower both sides, compare) is the specification's
    "same letter up to case". *)
Lemma lower_char_eq_iff a b :
  Py.lower_char a = Py.lower_char b <-> same_ignoring_case a b.
Proof.
  unfold same_ignoring_case. split.
  - intros H.
    destruct (Py.is_upper a) eqn:Ha, (Py.is_upper b) eqn:Hb.
    + left. apply nat_of_ascii_inj.
      apply (f_equal nat_of_ascii) in H.
      rewrite !nat_of_lower_upper in H by assumption. lia.
    + right; left. split; [reflexivity|].
      apply (f_equal nat_of_ascii) in H.
      rewrite nat_of_lower_upper in H by assumption.
      rewrite (lower_char_not_upper b) in H by assumption. lia.
    + right; right. split; [reflexivity|].
      apply (f_equal nat_of_ascii) in H.
      rewrite (nat_of_lower_upper b) in H by assumption.
      rewrite (lower_char_not_upper a) in H by assumption. lia.
    + left. now rewrite !lower_char_not_upper in H by assumption.
  - intros [-> | [[Ha Hb] | [Hb Ha]]]; [reflexivity| |].
    + apply nat_of_ascii_inj. rewrite nat_of_lower_upper by assumption.
      rewrite lower_char_not_upper; [lia|].
      apply is_upper_false_range. apply is_upper_range in Ha. lia.
    + apply nat_of_ascii_inj. rewrite (nat_of_lower_upper b) by assumption.
      rewrite lower_char_not_upper; [lia|].
      apply is_upper_false_range. apply is_upper_range in Hb. lia.
Qed.

Lemma lower_eq_iff s t :
  Py.lower s = Py.lower t <-> equal_ignoring_case s t.
Proof.
  split.
  - revert t. induction s as [|a s IH]; intros [|b t] H; simpl in H;
      try discriminate; [constructor|].
    injection H as Hc Hs. constructor; [now apply lower_char_eq_iff | auto].
  - induction 1 as [|a b s t Hab _ IH]; simpl; [reflexivity|].
    apply lower_char_eq_iff in Hab. now rewrite Hab, IH.
Qed.

Lemma lower_app s t : Py.lower (s ++ t) = Py.lower s ++ Py.lower t.
Proof. induction s as [|a s IH]; simpl; [reflexivity | now rewrite IH]. Qed.

Lemma lower_app_inv s u v :
  Py.lower s = u ++ v ->
  exists s1 s2, s = s1 ++ s2 /\ Py.lower s1 = u /\ Py.lower s2 = v.
Proof.
  revert s. induction u as [|a u IH]; intros s H; simpl in H.
  - exists "", s. auto.
  - destruct s as [|c s]; simpl in H; [discriminate|].
    injection H as Hc Hs. destruct (IH _ Hs) as (s1 & s2 & -> & H1 & H2).
    exists (String c s1), s2. simpl. now rewrite Hc, H1.
Qed.

Lemma startswith_iff p s :
  Py.startswith p s = true <-> exists post, s = p ++ post.
Proof.
  revert s. induction p as [|a p IH]; intros s; simpl.
  - split; [intros _; now exists s | reflexivity].
  - destruct s as [|b s].
    + split; [discriminate | intros [post H]; discriminate].
    + rewrite andb_true_iff, Ascii.eqb_eq, IH. split.
      * intros [-> [post ->]]. now exists post.
      * intros [post H]. injection H as -> ->. split; [reflexivity|now exists post].
Qed.

Lemma str_in_iff sub s :
  Py.str_in sub s = true <-> exists pre post, s = pre ++ sub ++ post.
Proof.
  induction s as [|b s IH]; simpl.
  - rewrite orb_false_r, startswith_iff. split.
    + intros [post H]. now exists "", post.
    + intros (pre & post & H). destruct pre; simpl in H; [now exists post|discriminate].
  - rewrite orb_true_iff, startswith_iff, IH. split.
    + intros [[post H] | (pre & post & ->)].
      * now exists "", post.
      * now exists (String b pre), post.
    + intros (pre & post & H). destruct pre as [|c pre]; simpl in H.
      * left. now exists post.
      * right. injection H as _ ->. now exists pre, post.
Qed.

(** Refinement: the code's [sub.lower() in s.lower()] decides the
    specification's case-insensitive occurrence. *)
Lemma str_in_lower_iff sub s :
  Py.str_in (Py.lower sub) (Py.lower s) = true <-> occurs_ignoring_case sub s.
Proof.
  rewrite str_in_iff. unfold occurs_ignoring_case. split.
  - intros (u & v & H).
    apply lower_app_inv in H as (pre & rest & -> & Hpre & Hrest).
    apply lower_app_inv in Hrest as (mid & post & -> & Hmid & Hpost).
    exists pre, mid, post. split; [reflexivity | now apply lower_eq_iff].
  - intros (pre & mid & post & -> & Heq). apply lower_eq_iff in Heq.
    exists (Py.lower pre), (Py.lower post).
    now rewrite !lower_app, Heq.
Qed.

End StringFacts.

(* ===================================================================== *)
(** * SHA-256: the constants and the standard test vectors *)
(* ===================================================================== *)

Section HashFacts.
Import SHA256.
Local Open Scope Z_scope.

Example K_ends : List.nth 0 K 0 = 0x428a2f98 /\ List.nth 63 K 0 = 0xc67178f2 /\ List.length K = 64%nat.
Proof. vm_compute. repeat split. Qed.

Example H0_ends : ra H0 = 0x6a09e667 /\ rh H0 = 0x5be0cd19.
Proof. vm_compute. split; reflexivity. Qed.

Lemma hexdigest_length r : String.length (hexdigest r) = 64%nat.
Proof. reflexivity. Qed.

Example sha256_empty :
  sha256_hex "" = "e3b0c44298fc1c149afbf4c8996fb92427ae41e4649b934ca495991b7852b855".
Proof. vm_compute. reflexivity. Qed.

Example sha256_abc :
  sha256_hex "abc" = "ba7816bf8f01cfea414140de5dae2223b00361a396177a9cb410ff61f20015ad".
Proof. vm_compute. reflexivity. Qed.

Example sha256_two_blocks :
  sha256_hex "abcdbcdecdefdefgefghfghighijhijkijkljklmklmnlmnomnopnopq"
  = "248d6a61d20638b8e5c026930c3e6039a33ce45964ff2167f6ecedd419db06c1".
Proof. vm_compute. reflexivity. Qed.

End HashFacts.

(* ===================================================================== *)
(** * Properties of the matcher *)
(* ===================================================================== *)

Section MatcherFacts.

Lemma entry_matches_iff text name tk :
  entry_matches text (name, tk) = true
  <-> occurs_ignoring_case name text \/ occurs_ignoring_case tk text.
Proof.
  unfold entry_matches. simpl.
  now rewrite orb_true_iff, !str_in_lower_iff.
Qed.

Lemma mentions_iff (names : watchlist) text tk :
  In tk (mentions names text)
  <-> exists name,
        In (name, tk) names
        /\ (occurs_ignoring_case name text \/ occurs_ignoring_case tk text).
Proof.
  unfold mentions. rewrite in_map_iff. split.
  - intros ([name tk'] & Hsnd & Hin). simpl in Hsnd. subst tk'.
    apply filter_In in Hin as [Hin Hm].
    exists name. split; [assumption | now apply entry_matches_iff].
  - intros (name & Hin & Hocc). exists (name, tk). split; [reflexivity|].
    apply filter_In. split; [assumption | now apply entry_matches_iff].
Qed.

(** ** The social stream: whole words only *)









(** ** The words [re.findall] finds are exactly the whole words *)


















End MatcherFacts.

Example matched_whole_words :
  Reddit.matched "Is $AAPL or nvda the better buy?" "btc-usd, XRP2 and MSFT_X" = ["AAPL"; "NVDA"; "BTC"].
Proof. vm_compute. reflexivity. Qed.




(* ===================================================================== *)
(** * Properties of the store and of the three writers *)
(* ===================================================================== *)

Section StoreFacts.

Lemma store_eta s : Store (news_articles s) (ticker_mentions s) = s.
Proof. now destruct s. Qed.

Lemma insert_article_duplicate row s :
  has_article (article_id row) s = true ->
  insert_article row s = (Exc ConstraintException, s).
Proof. intros H. unfold insert_article. now rewrite H. Qed.

Lemma insert_article_fresh row s :
  has_article (article_id row) s = false ->
  insert_article row s
  = (Val tt, Store (news_articles s ++ [row]) (ticker_mentions s)).
Proof. intros H. unfold insert_article. now rewrite H. Qed.

Lemma insert_mentions_eval id found s :
  for_each found (fun tk => insert_mention (MentionRow id tk)) s
  = (Val tt, Store (news_articles s)
                   (ticker_mentions s ++ List.map (MentionRow id) found)).
Proof.
  revert s. induction found as [|tk found IH]; intros s; simpl.
  - unfold ret. now rewrite app_nil_r, store_eta.
  - unfold bind, insert_mention at 1. rewrite IH. simpl.
    now rewrite <- app_assoc.
Qed.

(** ** Global news *)

Lemma gdelt_save_article_eval strptime url title0 published ts s :
  Py.truthy published = true ->
  strptime (Py.rstrip_char "Z" (Py.remove_char "T" published)) = Some ts ->
  Gdelt.save_article strptime (Gdelt.Article (Some url) (Some title0) (Some published)) s
  = match mentions Gdelt.COMPANY_NAMES title0 with
    | [] => (Val tt, s)
    | found =>
        (Val tt,
         Store (if has_article (Gdelt.hash_id url) s then news_articles s
                else news_articles s ++ [ArticleRow (Gdelt.hash_id url) title0 ts])
               (ticker_mentions s ++ List.map (MentionRow (Gdelt.hash_id url)) found))
    end.
Proof.
  intros Ht Hp. unfold Gdelt.save_article. run_db. rewrite Ht. run_db. rewrite Hp.
  destruct (mentions Gdelt.COMPANY_NAMES title0) as [|tk found] eqn:Hm; [reflexivity|].
  run_db. destruct (has_article (Gdelt.hash_id url) s) eqn:Hdup;
    now rewrite insert_mentions_eval.
Qed.

(** ** Feeds *)

Lemma rss_store_article_eval title0 url ts found s :
  Rss.store_article title0 url ts found s
  = if has_article (Rss.hash_id url) s then (Val tt, s)
    else (Val tt,
          Store (news_articles s ++ [ArticleRow (Rss.hash_id url) title0 ts])
                (ticker_mentions s ++ List.map (MentionRow (Rss.hash_id url)) found)).
Proof.
  unfold Rss.store_article. run_db.
  destruct (has_article (Rss.hash_id url) s); [reflexivity|].
  now rewrite insert_mentions_eval.
Qed.

(** ** Microblog *)

Lemma twitter_save_tweet_eval strptime tw ts s :
  Twitter.too_small tw = false ->
  strptime (Twitter.tw_created_at tw) = Some ts ->
  Twitter.save_tweet strptime tw s
  = match mentions Twitter.COMPANY_NAMES (Twitter.tw_text tw) with
    | [] => (Val 0, s)
    | found =>
        if has_article (Twitter.hash_id (Twitter.tw_id tw)) s then (Val 0, s)
        else (Val 1,
              Store (news_articles s
                     ++ [ArticleRow (Twitter.hash_id (Twitter.tw_id tw)) (Twitter.tw_text tw) ts])
                    (ticker_mentions s
                     ++ List.map (MentionRow (Twitter.hash_id (Twitter.tw_id tw))) found))
    end.
Proof.
  intros Hs Hp. unfold Twitter.save_tweet. rewrite Hs, Hp. run_db.
  destruct (mentions Twitter.COMPANY_NAMES (Twitter.tw_text tw)) as [|tk found] eqn:Hm;
    [reflexivity|].
  run_db. destruct (has_article (Twitter.hash_id (Twitter.tw_id tw)) s); [reflexivity|].
  unfold bind. now rewrite insert_mentions_eval.
Qed.

(** The feed and microblog writers leave the store as it is on a
    duplicate: [store_article] returns, [save_to_db] continues. *)
Lemma rss_duplicate_is_noop title0 url ts found s :
  has_article (Rss.hash_id url) s = true ->
  Rss.store_article title0 url ts found s = (Val tt, s).
Proof. intros H. now rewrite rss_store_article_eval, H. Qed.

Lemma twitter_duplicate_is_noop strptime tw s :
  has_article (Twitter.hash_id (Twitter.tw_id tw)) s = true ->
  snd (Twitter.save_tweet strptime tw s) = s.
Proof.
  intros H. unfold Twitter.save_tweet.
  destruct (Twitter.too_small tw); [reflexivity|].
  destruct (strptime (Twitter.tw_created_at tw)) as [ts|]; run_db; [|reflexivity].
  destruct (mentions Twitter.COMPANY_NAMES (Twitter.tw_text tw)); [reflexivity|].
  run_db. now rewrite H.
Qed.

(** The global-news writer passes on a duplicate and goes on to the
    mention rows: they are appended once more. *)
Lemma gdelt_duplicate_appends_mentions strptime url title0 published ts s :
  Py.truthy published = true ->
  strptime (Py.rstrip_char "Z" (Py.remove_char "T" published)) = Some ts ->
  has_article (Gdelt.hash_id url) s = true ->
  Gdelt.save_article strptime (Gdelt.Article (Some url) (Some title0) (Some published)) s
  = (Val tt,
     Store (news_articles s)
           (ticker_mentions s
            ++ List.map (MentionRow (Gdelt.hash_id url)) (mentions Gdelt.COMPANY_NAMES title0))).
Proof.
  intros Ht Hp Hdup. rewrite (gdelt_save_article_eval _ _ _ _ ts) by assumption.
  rewrite Hdup.
  destruct (mentions Gdelt.COMPANY_NAMES title0); [|reflexivity].
  simpl. now rewrite app_nil_r, store_eta.
Qed.

End StoreFacts.

(** C1: the global-news writer does not absorb a duplicate.  Saving the
    same article a second time keeps the single row of [news_articles]
    and adds a second (article_id, AAPL) row to [ticker_mentions], where
    the claim has the store unchanged and at most one such row. *)
Theorem C1_gdelt_duplicate_adds_mention_rows :
  let id := Gdelt.hash_id "https://example.com/markets/apple-rally" in
  let once := snd (Gdelt.save_to_db noon [apple_article] empty_store) in
  let twice := snd (Gdelt.save_to_db noon [apple_article] once) in
  fst (Gdelt.save_to_db noon [apple_article] once) = Val tt
  /\ List.length (article_rows id once) = 1
  /\ List.length (mention_rows id "AAPL" once) = 1
  /\ List.length (article_rows id twice) = 1
  /\ List.length (mention_rows id "AAPL" twice) = 2
  /\ twice <> once.
Proof.
  vm_compute. repeat split; discriminate.
Qed.

(* ===================================================================== *)
(** * Event ids *)
(* ===================================================================== *)

(** C10: the three [hash_id] are the same function, the 64-character
    SHA-256 hex digest of the text (they give the digests of the standard
    test vectors of SHA-256 and of a URL); so the same URL has the same
    [article_id] for the global-news poller and the feed poller.  When
    the global-news poller wrote it first, it is a duplicate for the feed
    poller, whose [store_article] leaves the store as it is.  The other
    way round the code misses the claim: the global-news writer adds no
    second article row, and appends the mention rows once more, so that
    the store has two (article_id, AAPL) rows for an article seen by both
    pollers.  The microblog writer keys its row on the hash of the tweet
    id. *)
Theorem C10_hash_id_agree_and_news_writer_repeats_mentions :
  (forall text : string,
      Gdelt.hash_id text = Rss.hash_id text
      /\ Rss.hash_id text = Twitter.hash_id text
      /\ String.length (Gdelt.hash_id text) = 64)
  /\ Gdelt.hash_id ""
     = "e3b0c44298fc1c149afbf4c8996fb92427ae41e4649b934ca495991b7852b855"
  /\ Rss.hash_id "abc"
     = "ba7816bf8f01cfea414140de5dae2223b00361a396177a9cb410ff61f20015ad"
  /\ Twitter.hash_id "abcdbcdecdefdefgefghfghighijhijkijkljklmklmnlmnomnopnopq"
     = "248d6a61d20638b8e5c026930c3e6039a33ce45964ff2167f6ecedd419db06c1"
  /\ Gdelt.hash_id "https://example.com/markets/apple-rally"
     = "3c1322e7300b0d78aaf24ad9d760360b9d0f6b5c549884c209936e5386659c8f"
  /\ Twitter.hash_id "1944926152071495802"
     = "b730025b2c3bae440006402c2aa9d81f74fad2250676c6030d62b0de229fbd42"
  /\ (forall title0 url ts found s,
         has_article (Gdelt.hash_id url) s = true ->
         Rss.store_article title0 url ts found s = (Val tt, s))
  /\ (forall strptime url title0 published ts s,
         Py.truthy published = true ->
         strptime (Py.rstrip_char "Z" (Py.remove_char "T" published)) = Some ts ->
         has_article (Rss.hash_id url) s = true ->
         Gdelt.save_article strptime (Gdelt.Article (Some url) (Some title0) (Some published)) s
         = (Val tt,
            Store (news_articles s)
                  (ticker_mentions s
                   ++ List.map (MentionRow (Gdelt.hash_id url))
                               (mentions Gdelt.COMPANY_NAMES title0))))
  /\ (let id := Rss.hash_id "https://example.com/markets/apple-rally" in
      let feed_first :=
        snd (Rss.poll_entry mktime_utc fromtimestamp_utc 1752500000%Z
               (Rss.Entry (Some "Apple rallies as chip stocks slip")
                          (Some "https://example.com/markets/apple-rally") None)
               empty_store) in
      let news_second := snd (Gdelt.save_to_db noon [apple_article] feed_first) in
      List.length (article_rows id feed_first) = 1
      /\ List.length (mention_rows id "AAPL" feed_first) = 1
      /\ fst (Gdelt.save_to_db noon [apple_article] feed_first) = Val tt
      /\ List.length (article_rows id news_second) = 1
      /\ List.length (mention_rows id "AAPL" news_second) = 2)
  /\ (forall strptime tw ts s,
         Twitter.too_small tw = false ->
         strptime (Twitter.tw_created_at tw) = Some ts ->
         mentions Twitter.COMPANY_NAMES (Twitter.tw_text tw) <> [] ->
         has_article (Twitter.hash_id (Twitter.tw_id tw)) s = false ->
         news_articles (snd (Twitter.save_tweet strptime tw s))
         = (news_articles s
            ++ [ArticleRow (Twitter.hash_id (Twitter.tw_id tw)) (Twitter.tw_text tw) ts])%list).
Proof.
  split.
  { intros text. split; [reflexivity|]. split; [reflexivity|]. apply hexdigest_length. }
  do 5 (split; [vm_compute; reflexivity|]).
  split; [intros title0 url ts found s H; now apply rss_duplicate_is_noop|].
  split.
  { intros strptime url title0 published ts s Ht Hp Hdup.
    now apply (gdelt_duplicate_appends_mentions _ _ _ _ ts). }
  split; [vm_compute; repeat split|].
  intros strptime tw ts s Hs Hp Hm Hfresh.
  rewrite (twitter_save_tweet_eval _ _ ts) by assumption.
  destruct (mentions Twitter.COMPANY_NAMES (Twitter.tw_text tw)); [contradiction|].
  now rewrite Hfresh.
Qed.

Lemma C10_hash_id_agree_and_news_writer_repeats_mentions_witness :
  (let s := snd (Gdelt.save_to_db noon [apple_article] empty_store) in
   Rss.store_article "Apple rallies" "https://example.com/markets/apple-rally" 0%Z ["AAPL"] s
   = (Val tt, s))
  /\ (let s := snd (Rss.store_article "Apple rallies" "https://example.com/markets/apple-rally"
                                      0%Z ["AAPL"] empty_store) in
      Gdelt.save_article noon
        (Gdelt.Article (Some "https://example.com/markets/apple-rally")
                       (Some "Apple rallies as chip stocks slip")
                       (Some "20250714T120000Z")) s
      = (Val tt,
         Store (news_articles s)
               (ticker_mentions s
                ++ List.map (MentionRow (Gdelt.hash_id "https://example.com/markets/apple-rally"))
                            (mentions Gdelt.COMPANY_NAMES "Apple rallies as chip stocks slip"))))
  /\ news_articles (snd (Twitter.save_tweet noon bitcoin_tweet empty_store))
     = [ArticleRow (Twitter.hash_id "1944926152071495802") "Bitcoin is not done yet"
                   1752494400%Z].
Proof.
  destruct C10_hash_id_agree_and_news_writer_repeats_mentions
    as (_ & _ & _ & _ & _ & _ & Hrss & Hgdelt & _ & Htw).
  split; [|split].
  - apply Hrss. vm_compute. reflexivity.
  - apply (Hgdelt noon _ _ "20250714T120000Z" 1752494400%Z); vm_compute; reflexivity.
  - apply (Htw noon bitcoin_tweet 1752494400%Z empty_store); vm_compute;
      first [reflexivity | discriminate].
Defined.

(** C6, the claim as written fails: two surface URLs of one article that
    differ by a tracking parameter are hashed as they are, get two ids and
    are stored as two events. *)
Lemma C6_tracking_variants_stored_twice :
  url_without_query "https://example.com/markets/apple-rally?utm_source=rss"
  = url_without_query "https://example.com/markets/apple-rally"
  /\ Gdelt.hash_id "https://example.com/markets/apple-rally?utm_source=rss"
     <> Gdelt.hash_id "https://example.com/markets/apple-rally"
  /\ List.length
       (news_articles
          (snd (Gdelt.save_to_db noon [apple_article; apple_article_tracked] empty_store)))
     = 2.
Proof.
  split; [reflexivity|]. split; [vm_compute; discriminate | vm_compute; reflexivity].
Qed.

(** C6 (as amended): the id is a function of the raw URL string, its
    SHA-256 digest, with no normalization: equal URLs give equal ids, and
    two matched articles are stored as one event exactly when the digests
    of their URLs as received are equal, as two events otherwise. *)
Theorem C6_dedup_by_hash_of_raw_url :
  forall strptime u1 u2 t1 t2 d1 d2 ts1 ts2,
    Py.truthy d1 = true -> Py.truthy d2 = true ->
    strptime (Py.rstrip_char "Z" (Py.remove_char "T" d1)) = Some ts1 ->
    strptime (Py.rstrip_char "Z" (Py.remove_char "T" d2)) = Some ts2 ->
    mentions Gdelt.COMPANY_NAMES t1 <> [] ->
    mentions Gdelt.COMPANY_NAMES t2 <> [] ->
    let stored :=
      news_articles
        (snd (Gdelt.save_to_db strptime
                [Gdelt.Article (Some u1) (Some t1) (Some d1);
                 Gdelt.Article (Some u2) (Some t2) (Some d2)] empty_store)) in
    (u1 = u2 -> Gdelt.hash_id u1 = Gdelt.hash_id u2)
    /\ Gdelt.hash_id u1 = SHA256.sha256_hex u1
    /\ (Gdelt.hash_id u1 = Gdelt.hash_id u2 ->
        stored = [ArticleRow (Gdelt.hash_id u1) t1 ts1])
    /\ (Gdelt.hash_id u1 <> Gdelt.hash_id u2 ->
        stored = [ArticleRow (Gdelt.hash_id u1) t1 ts1; ArticleRow (Gdelt.hash_id u2) t2 ts2]).
Proof.
  intros strptime u1 u2 t1 t2 d1 d2 ts1 ts2 Hd1 Hd2 Hp1 Hp2 Hm1 Hm2 stored.
  assert (Hstored :
            stored
            = if String.eqb (Gdelt.hash_id u1) (Gdelt.hash_id u2)
              then [ArticleRow (Gdelt.hash_id u1) t1 ts1]
              else [ArticleRow (Gdelt.hash_id u1) t1 ts1; ArticleRow (Gdelt.hash_id u2) t2 ts2]).
  { subst stored. unfold Gdelt.save_to_db.
    cbn [for_each]. unfold bind at 1.
    rewrite (gdelt_save_article_eval _ _ _ _ ts1) by assumption.
    destruct (mentions Gdelt.COMPANY_NAMES t1) as [|tk1 f1] eqn:E1; [contradiction|].
    cbn [has_article news_articles empty_store List.existsb app].
    unfold bind at 1.
    rewrite (gdelt_save_article_eval _ _ _ _ ts2) by assumption.
    destruct (mentions Gdelt.COMPANY_NAMES t2) as [|tk2 f2] eqn:E2; [contradiction|].
    cbn [has_article news_articles List.existsb article_id snd ret for_each orb].
    rewrite orb_false_r.
    now destruct (String.eqb (Gdelt.hash_id u1) (Gdelt.hash_id u2)). }
  rewrite Hstored. clear Hstored.
  split; [now intros ->|]. split; [reflexivity|]. split.
  - intros ->. now rewrite String.eqb_refl.
  - intros Hne. apply String.eqb_neq in Hne. now rewrite Hne.
Qed.

Lemma C6_dedup_by_hash_of_raw_url_witness :
  let stored :=
    news_articles (snd (Gdelt.save_to_db noon [apple_article; apple_article_tracked] empty_store)) in
  stored
  = [ArticleRow (Gdelt.hash_id "https://example.com/markets/apple-rally")
                "Apple rallies as chip stocks slip" 1752494400%Z;
     ArticleRow (Gdelt.hash_id "https://example.com/markets/apple-rally?utm_source=rss")
                "Apple rallies as chip stocks slip" 1752494400%Z].
Proof.
  apply (C6_dedup_by_hash_of_raw_url noon
           "https://example.com/markets/apple-rally"
           "https://example.com/markets/apple-rally?utm_source=rss"
           "Apple rallies as chip stocks slip" "Apple rallies as chip stocks slip"
           "20250714T120000Z" "20250714T120000Z" 1752494400%Z 1752494400%Z);
    vm_compute; first [reflexivity | discriminate].
Defined.

(* ===================================================================== *)
(** * Timestamps *)
(* ===================================================================== *)

Section TimestampFacts.

Lemma rss_poll_entry_eval mktime fromtimestamp now title0 link published ts s :
  Py.truthy title0 = true -> Py.truthy link = true ->
  rss_entry_time mktime fromtimestamp now published = Some ts ->
  Rss.poll_entry mktime fromtimestamp now (Rss.Entry (Some title0) (Some link) published) s
  = match mentions Rss.COMPANY_NAMES title0 with
    | [] => (Val 0, s)
    | found =>
        if has_article (Rss.hash_id link) s then (Val 1, s)
        else (Val 1,
              Store (news_articles s ++ [ArticleRow (Rss.hash_id link) title0 ts])
                    (ticker_mentions s ++ List.map (MentionRow (Rss.hash_id link)) found))
    end.
Proof.
  intros Ht Hl Hts. unfold Rss.poll_entry.
  cbn [Rss.entry_title Rss.entry_link Rss.published_parsed].
  rewrite Ht, Hl. cbn [negb orb].
  unfold bind at 1. unfold rss_entry_time in Hts.
  destruct published as [p|].
  - unfold bind at 1. destruct (mktime p) as [t|]; [|discriminate].
    cbn [of_option ret]. rewrite Hts. cbn [of_option ret].
    destruct (mentions Rss.COMPANY_NAMES title0) as [|tk found]; [reflexivity|].
    unfold bind; rewrite rss_store_article_eval.
    now destruct (has_article (Rss.hash_id link) s).
  - injection Hts as ->. cbn [of_option ret].
    destruct (mentions Rss.COMPANY_NAMES title0) as [|tk found]; [reflexivity|].
    unfold bind; rewrite rss_store_article_eval.
    now destruct (has_article (Rss.hash_id link) s).
Qed.

(** When one of the two conversions raises, the entry raises before the
    title is matched and nothing is written. *)
Lemma rss_poll_entry_time_raises mktime fromtimestamp now title0 link p s :
  Py.truthy title0 = true -> Py.truthy link = true ->
  rss_entry_time mktime fromtimestamp now (Some p) = None ->
  Rss.poll_entry mktime fromtimestamp now (Rss.Entry (Some title0) (Some link) (Some p)) s
  = (Exc (match mktime p with Some _ => ValueError | None => OverflowError end), s).
Proof.
  intros Ht Hl Hts. unfold Rss.poll_entry.
  cbn [Rss.entry_title Rss.entry_link Rss.published_parsed].
  rewrite Ht, Hl. cbn [negb orb].
  unfold bind at 1. unfold bind at 1. unfold rss_entry_time in Hts.
  destruct (mktime p) as [t|]; cbn [of_option ret raise]; [|reflexivity].
  rewrite Hts. reflexivity.
Qed.

Example mktime_utc_dates :
  mktime_utc (Rss.StructTime 1970 1 1 0 0 0) = Some 0%Z
  /\ mktime_utc (Rss.StructTime 2000 2 29 0 0 0) = Some 951782400%Z
  /\ mktime_utc (Rss.StructTime 2025 7 14 12 0 0) = Some 1752494400%Z
  /\ mktime_utc (Rss.StructTime 2025 7 14 12 0 0) = mktime_july (Rss.StructTime 2025 7 14 12 0 0)
  /\ mktime_utc (Rss.StructTime 9999 12 31 23 59 59) = Some 253402300799%Z
  /\ fromtimestamp_utc 253402300799 = Some 253402300799%Z
  /\ fromtimestamp_utc 253402300800 = None.
Proof. vm_compute. repeat split. Qed.

(** The feed parser gives [published_parsed] in UTC and [time.mktime]
    reads it as local time: on a host at UTC-4 an entry published at
    noon UTC is stored with the timestamp of 16:00 UTC. *)
Example rss_timestamp_on_a_host_off_utc :
  Rss.poll_entry (mktime_local 0) fromtimestamp_utc 1752500000%Z nvidia_entry empty_store
  = (Val 1,
     Store [ArticleRow (Rss.hash_id "https://example.com/nvda") "Nvidia tops estimates"
                       1752494400%Z]
           [MentionRow (Rss.hash_id "https://example.com/nvda") "NVDA"])
  /\ Rss.poll_entry (mktime_local (-14400)) fromtimestamp_utc 1752500000%Z nvidia_entry
       empty_store
     = (Val 1,
        Store [ArticleRow (Rss.hash_id "https://example.com/nvda") "Nvidia tops estimates"
                          (1752494400 + 14400)%Z]
              [MentionRow (Rss.hash_id "https://example.com/nvda") "NVDA"]).
Proof. vm_compute. split; reflexivity. Qed.

End TimestampFacts.




(* ===================================================================== *)
(** * The microblog poller: influence threshold and rate limit *)
(* ===================================================================== *)

Section TwitterFacts.
Variable strptime : string -> option datetime.
Variable fromtimestamp : Z -> Z.

Lemma save_tweet_too_small tw s :
  Twitter.too_small tw = true -> Twitter.save_tweet strptime tw s = (Val 0, s).
Proof. intros H. unfold Twitter.save_tweet. now rewrite H. Qed.

Lemma save_loop_skips_too_small tw pre post added s :
  Twitter.too_small tw = true ->
  Twitter.save_loop strptime (pre ++ tw :: post) added s
  = Twitter.save_loop strptime (pre ++ post) added s.
Proof.
  intros Hsmall. revert added s.
  induction pre as [|tw0 pre IH]; intros added s; cbn [app Twitter.save_loop].
  - unfold bind. rewrite save_tweet_too_small by assumption.
    now rewrite Nat.add_0_r.
  - unfold bind. destruct (Twitter.save_tweet strptime tw0 s) as [[n|e] s'];
      [apply IH | reflexivity].
Qed.

(** The only exception [save_to_db] lets out is the [ValueError] of
    [strptime]. *)
Lemma save_tweet_raises tw s e s' :
  Twitter.save_tweet strptime tw s = (Exc e, s') -> e = ValueError.
Proof.
  unfold Twitter.save_tweet.
  destruct (Twitter.too_small tw); [discriminate|].
  destruct (strptime (Twitter.tw_created_at tw)) as [ts|]; run_db;
    [|intros H; now injection H as <- _].
  destruct (mentions Twitter.COMPANY_NAMES (Twitter.tw_text tw)); [discriminate|].
  run_db. destruct (has_article _ s); [discriminate|].
  unfold bind. rewrite insert_mentions_eval. discriminate.
Qed.

Lemma save_loop_raises tweets added s e s' :
  Twitter.save_loop strptime tweets added s = (Exc e, s') -> e = ValueError.
Proof.
  revert added s. induction tweets as [|tw tweets IH]; intros added s;
    cbn [Twitter.save_loop]; [discriminate|].
  unfold bind. destruct (Twitter.save_tweet strptime tw s) as [[n|e0] s0] eqn:E.
  - apply IH.
  - intros H. injection H as <- _. eapply save_tweet_raises; eassumption.
Qed.

Lemma backoff_at_least_one reset now : (1 <= Twitter.backoff fromtimestamp reset now)%Z.
Proof. unfold Twitter.backoff. lia. Qed.

Lemma poll_loop_never_raises_rate_limit interval turns p s e s' :
  Twitter.poll_loop strptime fromtimestamp interval turns p s = (Exc e, s') ->
  forall reset, e <> TooManyRequests reset.
Proof.
  revert p s. induction turns as [|t turns IH]; intros p s; cbn [Twitter.poll_loop];
    [discriminate|].
  destruct (Twitter.fetched t) as [[|tw tweets]|e0].
  - apply IH.
  - unfold bind.
    destruct (Twitter.save_to_db strptime (tw :: tweets) s) as [[n|e1] s1] eqn:E.
    + apply IH.
    + intros H reset. injection H as <- _.
      apply save_loop_raises in E. subst e1. discriminate.
  - destruct e0; try (intros H reset; injection H as <- _; discriminate).
    apply IH.
Qed.

End TwitterFacts.

(** C9: a tweet whose author has fewer followers than [MIN_FOLLOWERS] is
    dropped before its date is read, before matching and before any
    insert: alone it leaves the store as it is, and inside any batch the
    result and the store are those of the batch without it. *)
Theorem C9_small_accounts_never_stored :
  forall (strptime : string -> option datetime) (tw : Twitter.tweet),
    (Twitter.followers tw < Twitter.MIN_FOLLOWERS)%Z ->
    (forall s, Twitter.save_tweet strptime tw s = (Val 0, s))
    /\ (forall pre post s,
           Twitter.save_to_db strptime (pre ++ tw :: post) s
           = Twitter.save_to_db strptime (pre ++ post) s).
Proof.
  intros strptime tw Hlt.
  assert (Hsmall : Twitter.too_small tw = true)
    by (unfold Twitter.too_small; now apply Z.ltb_lt).
  split.
  - intros s. now apply save_tweet_too_small.
  - intros pre post s. unfold Twitter.save_to_db. now apply save_loop_skips_too_small.
Qed.

Lemma C9_small_accounts_never_stored_witness :
  (forall s, Twitter.save_tweet noon small_account_tweet s = (Val 0, s))
  /\ (forall pre post s,
         Twitter.save_to_db noon (pre ++ small_account_tweet :: post) s
         = Twitter.save_to_db noon (pre ++ post) s).
Proof.
  apply (C9_small_accounts_never_stored noon small_account_tweet). reflexivity.
Defined.

Lemma backoff_reaches_reset (fromtimestamp : Z -> Z) reset now :
  (1000000 <= fromtimestamp reset - now)%Z ->
  let wait := Twitter.backoff fromtimestamp reset now in
  (now + wait * 1000000 <= fromtimestamp reset < now + (wait + 1) * 1000000)%Z.
Proof.
  intros Hd wait. subst wait. unfold Twitter.backoff.
  set (d := (fromtimestamp reset - now)%Z) in *.
  pose proof (Z.quot_rem' d 1000000) as Hqr.
  pose proof (Z.rem_bound_pos d 1000000 ltac:(lia) ltac:(lia)) as Hr.
  lia.
Qed.

Lemma backoff_clamped (fromtimestamp : Z -> Z) reset now :
  (fromtimestamp reset - now < 1000000)%Z ->
  Twitter.backoff fromtimestamp reset now = 1%Z.
Proof.
  intros Hd. unfold Twitter.backoff.
  set (d := (fromtimestamp reset - now)%Z) in *.
  pose proof (Z.quot_rem' d 1000000) as Hqr.
  destruct (Z.le_gt_cases 0 d) as [Hpos | Hneg].
  - pose proof (Z.rem_bound_pos d 1000000 ltac:(lia) ltac:(lia)) as Hr. lia.
  - pose proof (Z.rem_bound_pos_neg d 1000000 ltac:(lia) ltac:(lia)) as Hr. lia.
Qed.

(** On any host, a [TooManyRequests] carrying a reset time makes the loop
    sleep [max(1, int(reset - utcnow))] seconds, [reset] being the local
    reading of the reset time: at least one second always; exactly one
    when that reading is less than a second ahead of [utcnow], or behind
    it; and otherwise up to that reading, less the fraction of a second
    that [int] drops.  The turn writes nothing, the loop goes on with the
    next fetch, and no run of the loop ends by a [TooManyRequests]. *)
Lemma rate_limit_turn_is_absorbed :
  forall (strptime : string -> option datetime) (fromtimestamp : Z -> Z)
         (interval reset now : Z) (rest : list Twitter.turn) (p : Twitter.progress) (s : store),
    let wait := Twitter.backoff fromtimestamp reset now in
    (1 <= wait)%Z
    /\ ((fromtimestamp reset - now < 1000000)%Z -> wait = 1%Z)
    /\ ((1000000 <= fromtimestamp reset - now)%Z ->
        (now + wait * 1000000 <= fromtimestamp reset < now + (wait + 1) * 1000000)%Z)
    /\ Twitter.poll_loop strptime fromtimestamp interval
         (Twitter.Turn (Exc (TooManyRequests reset)) now :: rest) p s
       = Twitter.poll_loop strptime fromtimestamp interval rest
           (Twitter.Progress (Twitter.stored p) (Twitter.sleeps p ++ [wait])) s
    /\ (forall turns e s',
           Twitter.poll_loop strptime fromtimestamp interval turns p s = (Exc e, s') ->
           forall r, e <> TooManyRequests r).
Proof.
  intros strptime fromtimestamp interval reset now rest p s wait.
  split; [apply backoff_at_least_one|].
  split; [apply backoff_clamped|].
  split; [apply backoff_reaches_reset|].
  split; [reflexivity|].
  intros turns e s'. apply poll_loop_never_raises_rate_limit.
Qed.

(** A run on a host whose local time is UTC: the reset is 59.5 s ahead
    and the loop sleeps 59 s; then the reset is 3 s in the past and the
    loop sleeps 1 s; then a tweet comes and is stored. *)
Example poll_twitter_on_utc_host :
  Twitter.poll_twitter noon utc_clock 20
    [Twitter.Turn (Exc (TooManyRequests 1752494460)) 1752494400500000;
     Twitter.Turn (Exc (TooManyRequests 1752494460)) 1752494463000000;
     Twitter.Turn (Val [bitcoin_tweet]) 1752494464000000] empty_store
  = (Val (Twitter.Progress 1 [59; 1; 20]%Z),
     Store [ArticleRow (Twitter.hash_id "1944926152071495802") "Bitcoin is not done yet"
                       1752494400%Z]
           [MentionRow (Twitter.hash_id "1944926152071495802") "BTC"]).
Proof. vm_compute. reflexivity. Qed.

Lemma backoff_on_local_clock (utcoffset reset now_s : Z) :
  Twitter.backoff (local_clock utcoffset) reset (now_s * 1000000)
  = Z.max 1 (reset - now_s + utcoffset).
Proof.
  unfold Twitter.backoff, local_clock.
  replace ((reset + utcoffset) * 1000000 - now_s * 1000000)%Z
    with ((reset - now_s + utcoffset) * 1000000)%Z by lia.
  now rewrite Z.quot_mul by lia.
Qed.

(** C7, where the code misses the claim: the loop is written to sleep
    until the reset time, and it compares the local reading of the reset
    time ([datetime.fromtimestamp] without a time zone) with the UTC
    reading of the present ([datetime.utcnow]).  On a host whose local
    time is UTC plus [utcoffset] seconds, a reset [reset - now] seconds
    ahead gives a sleep of [max(1, reset - now + utcoffset)] seconds: the
    time to the reset only when [utcoffset] is 0.  On a host at UTC-4 a
    reset 900 s ahead gives a sleep of 1 s, and the loop asks again every
    second while the limit lasts; on a host at UTC+2 it gives a sleep of
    8100 s, two hours past the reset.  The sleep is at least one second
    in every case, and the rate-limited turn writes nothing. *)
Theorem C7_sleep_is_off_by_the_utc_offset :
  (forall utcoffset reset now_s : Z,
      Twitter.backoff (local_clock utcoffset) reset (now_s * 1000000)
      = Z.max 1 (reset - now_s + utcoffset))
  /\ Twitter.backoff (local_clock 0) (1752494400 + 900) (1752494400 * 1000000) = 900%Z
  /\ Twitter.backoff (local_clock (-14400)) (1752494400 + 900) (1752494400 * 1000000) = 1%Z
  /\ Twitter.backoff (local_clock 7200) (1752494400 + 900) (1752494400 * 1000000) = 8100%Z
  /\ Twitter.poll_twitter noon (local_clock (-14400)) 20
       [Twitter.Turn (Exc (TooManyRequests (1752494400 + 900))) (1752494400 * 1000000);
        Twitter.Turn (Exc (TooManyRequests (1752494400 + 900))) (1752494401 * 1000000);
        Twitter.Turn (Exc (TooManyRequests (1752494400 + 900))) (1752494402 * 1000000)]
       empty_store
     = (Val (Twitter.Progress 0 [1; 1; 1]%Z), empty_store)
  /\ (forall (fromtimestamp : Z -> Z) (reset now : Z),
         (1 <= Twitter.backoff fromtimestamp reset now)%Z).
Proof.
  split; [exact backoff_on_local_clock|].
  split; [reflexivity|]. split; [reflexivity|]. split; [reflexivity|].
  split; [vm_compute; reflexivity|].
  exact backoff_at_least_one.
Qed.

(* ===================================================================== *)
(** * Paging of the global-news fetcher *)
(* ===================================================================== *)

Section FetchFacts.

(** The loop asks for the next page exactly when the answer was a 200
    carrying more than 250 articles. *)
Lemma fetch_loop_step fuel get page c :
  Gdelt.fetch_loop (S fuel) get page c
  = let c1 := Gdelt.Crawl (Gdelt.requested c ++ [page]) (Gdelt.all_articles c) in
    match get page with
    | Gdelt.GetRaises e => Some (Exc e)
    | Gdelt.BodyRaises code e =>
        if negb (code =? 200)%Z then Some (Val c1) else Some (Exc e)
    | Gdelt.Answer resp =>
        let rows := match Gdelt.articles resp with Some l => l | None => [] end in
        if negb (Gdelt.status resp =? 200)%Z then Some (Val c1)
        else if (List.length rows <=? 250)%nat
             then Some (Val (Gdelt.Crawl (Gdelt.requested c ++ [page])
                                         (Gdelt.all_articles c ++ rows)))
             else Gdelt.fetch_loop fuel get (S page)
                    (Gdelt.Crawl (Gdelt.requested c ++ [page]) (Gdelt.all_articles c ++ rows))
    end.
Proof. reflexivity. Qed.

(** The endpoint is asked for at most 250 records a page
    ([maxrecords=250]): with pages of at most 250 articles only page 1 is
    ever requested. *)
Lemma fetch_news_single_page fuel get rows :
  get 1 = Gdelt.Answer (Gdelt.Response 200 (Some rows)) ->
  List.length rows <= 250 ->
  Gdelt.fetch_news (S fuel) get = Some (Val (Gdelt.Crawl [1] rows)).
Proof.
  intros Hget Hlen. unfold Gdelt.fetch_news. rewrite fetch_loop_step, Hget.
  cbn [Z.eqb Pos.eqb negb Gdelt.requested Gdelt.all_articles Gdelt.status Gdelt.articles app].
  apply Nat.leb_le in Hlen. now rewrite Hlen.
Qed.

End FetchFacts.

(** C3: the fetcher stops after a full page.  Page 1 comes back with 250
    articles, a full page, and page 2 is not requested: the test is
    [len(rows) <= 250] where "pages until < 250 results returned" is
    documented. *)
Theorem C3_full_page_ends_pagination :
  List.length (List.repeat apple_article 250) = 250
  /\ forall fuel,
       Gdelt.fetch_news (S fuel) full_pages
       = Some (Val (Gdelt.Crawl [1] (List.repeat apple_article 250))).
Proof.
  split; [reflexivity|].
  intros fuel. apply fetch_news_single_page; [reflexivity|].
  rewrite repeat_length. lia.
Qed.

(* ===================================================================== *)
(** * One cycle of the feed poller *)
(* ===================================================================== *)

Section PollFacts.
Variable mktime : Rss.struct_time -> option Z.
Variable fromtimestamp : Z -> option datetime.
Variable parse : string -> Rss.parsed.
Variable now : datetime.

Lemma poll_feeds_app urls1 urls2 count s :
  Rss.poll_feeds mktime fromtimestamp parse now (urls1 ++ urls2) count s
  = match Rss.poll_feeds mktime fromtimestamp parse now urls1 count s with
    | (Val count1, s1) => Rss.poll_feeds mktime fromtimestamp parse now urls2 count1 s1
    | (Exc e, s1) => (Exc e, s1)
    end.
Proof.
  revert count s. induction urls1 as [|url urls1 IH]; intros count s;
    cbn [app Rss.poll_feeds]; [reflexivity|].
  unfold bind.
  destruct (Rss.poll_feed mktime fromtimestamp parse now url count s) as [[c|e] s0]; [apply IH | reflexivity].
Qed.

Lemma poll_feed_empty url count s :
  parse url = Rss.Feed [] -> Rss.poll_feed mktime fromtimestamp parse now url count s = (Val count, s).
Proof. intros H. unfold Rss.poll_feed. now rewrite H. Qed.

Lemma poll_feed_raises url count s :
  parse url = Rss.ParseRaises ->
  Rss.poll_feed mktime fromtimestamp parse now url count s = (Exc FeedError, s).
Proof. intros H. unfold Rss.poll_feed. now rewrite H. Qed.

End PollFacts.

(** C5, the claim as written fails: [poll_once] has no handler around a
    feed, so the error raised on the second feed ends the cycle, and the
    matching headline of the third feed is neither stored nor counted. *)
Lemma C5_raised_feed_error_ends_cycle :
  mentions Rss.COMPANY_NAMES "Nvidia tops estimates" <> []
  /\ fst (Rss.poll_once mktime_july fromtimestamp_utc second_feed_raises 1752500000%Z empty_store)
     = Exc FeedError
  /\ has_article (Rss.hash_id "https://example.com/nvda")
       (snd (Rss.poll_once mktime_july fromtimestamp_utc second_feed_raises 1752500000%Z empty_store))
     = false
  /\ has_article (Rss.hash_id "https://example.com/aapl")
       (snd (Rss.poll_once mktime_july fromtimestamp_utc second_feed_raises 1752500000%Z empty_store))
     = true.
Proof.
  vm_compute. repeat split; discriminate.
Qed.

(** C5 (as amended): a feed that the parser hands back without entries,
    which is how it reports a feed it could not reach or read, does not
    stop the cycle: the result and the store are those of the cycle over
    the other feeds.  An exception raised while a feed is fetched or
    parsed is not caught: it ends the cycle there, with what the earlier
    feeds stored. *)
Theorem C5_empty_feed_is_skipped_raised_error_ends_cycle :
  forall (mktime : Rss.struct_time -> option Z) (fromtimestamp : Z -> option datetime)
         (parse : string -> Rss.parsed)
         (now : datetime) (urls1 : list string) (url : string) (urls2 : list string)
         (count : nat) (s : store),
    (parse url = Rss.Feed [] ->
     Rss.poll_feeds mktime fromtimestamp parse now (urls1 ++ url :: urls2) count s
     = Rss.poll_feeds mktime fromtimestamp parse now (urls1 ++ urls2) count s)
    /\ (parse url = Rss.ParseRaises ->
        forall count1 s1,
          Rss.poll_feeds mktime fromtimestamp parse now urls1 count s = (Val count1, s1) ->
          Rss.poll_feeds mktime fromtimestamp parse now (urls1 ++ url :: urls2) count s
          = (Exc FeedError, s1)).
Proof.
  intros mktime fromtimestamp parse now urls1 url urls2 count s. split.
  - intros Hempty. rewrite !poll_feeds_app.
    destruct (Rss.poll_feeds mktime fromtimestamp parse now urls1 count s) as [[c1|e] s1]; [|reflexivity].
    cbn [Rss.poll_feeds]. unfold bind. now rewrite poll_feed_empty.
  - intros Hraise count1 s1 H1. rewrite poll_feeds_app, H1.
    cbn [Rss.poll_feeds]. unfold bind. now rewrite poll_feed_raises.
Qed.

Lemma C5_empty_feed_is_skipped_raised_error_ends_cycle_witness :
  (Rss.poll_feeds mktime_july fromtimestamp_utc second_feed_empty 1752500000%Z
     (["https://finance.yahoo.com/rss/"]
      ++ "https://www.investing.com/rss/news_301.rss"
      :: ["https://www.cnbc.com/id/100003114/device/rss/rss.html"]) 0 empty_store
   = Rss.poll_feeds mktime_july fromtimestamp_utc second_feed_empty 1752500000%Z
       (["https://finance.yahoo.com/rss/"]
        ++ ["https://www.cnbc.com/id/100003114/device/rss/rss.html"]) 0 empty_store)
  /\ Rss.poll_feeds mktime_july fromtimestamp_utc second_feed_raises 1752500000%Z
       ([] ++ "https://www.investing.com/rss/news_301.rss"
           :: ["https://www.cnbc.com/id/100003114/device/rss/rss.html"]) 0 empty_store
     = (Exc FeedError, empty_store).
Proof.
  split.
  - exact (proj1 (C5_empty_feed_is_skipped_raised_error_ends_cycle
                    mktime_july fromtimestamp_utc second_feed_empty 1752500000%Z
                    ["https://finance.yahoo.com/rss/"]
                    "https://www.investing.com/rss/news_301.rss"
                    ["https://www.cnbc.com/id/100003114/device/rss/rss.html"] 0 empty_store)
                 eq_refl).
  - exact (proj2 (C5_empty_feed_is_skipped_raised_error_ends_cycle
                    mktime_july fromtimestamp_utc second_feed_raises 1752500000%Z []
                    "https://www.investing.com/rss/news_301.rss"
                    ["https://www.cnbc.com/id/100003114/device/rss/rss.html"] 0 empty_store)
                 eq_refl 0 empty_store eq_refl).
Defined.

(* ===================================================================== *)
(** * Triangle expansion in the attention graph *)
(* ===================================================================== *)

Section GraphFacts.

Lemma pair_eq_inv (a b c d : string) :
  ({[a; b]} : gset string) = {[c; d]} -> (a = c /\ b = d) \/ (a = d /\ b = c).
Proof.
  intros H.
  assert (Hx : forall x : string, x ∈ ({[a; b]} : gset string) <-> x ∈ ({[c; d]} : gset string))
    by (intros x; by rewrite H).
  clear H.
  pose proof (proj1 (Hx a)). pose proof (proj1 (Hx b)).
  pose proof (proj2 (Hx c)). pose proof (proj2 (Hx d)).
  clear Hx. set_unfold. intuition (subst; auto).
Qed.

Lemma elem_of_pairs_from a l e :
  e ∈ Graph.pairs_from a l <-> exists b, b ∈ l /\ e = {[a; b]}.
Proof.
  unfold Graph.pairs_from. rewrite list_elem_of_fmap. split.
  - intros (b & -> & Hb). eauto.
  - intros (b & Hb & ->). eauto.
Qed.

Lemma elem_of_unordered_pairs l a b :
  a ∈ l -> b ∈ l -> a <> b -> ({[a; b]} : gset string) ∈ Graph.unordered_pairs l.
Proof.
  induction l as [|x l IH]; intros Ha Hb Hne; [by apply elem_of_nil in Ha|].
  cbn [Graph.unordered_pairs]. apply elem_of_app.
  apply elem_of_cons in Ha as [-> | Ha]; apply elem_of_cons in Hb as [-> | Hb].
  - done.
  - left. apply elem_of_pairs_from. by exists b.
  - left. apply elem_of_pairs_from. exists a. split; [done | apply (comm_L union)].
  - right. by apply IH.
Qed.

Lemma unordered_pairs_inv l e :
  NoDup l -> e ∈ Graph.unordered_pairs l ->
  exists a b, a ∈ l /\ b ∈ l /\ a <> b /\ e = {[a; b]}.
Proof.
  induction l as [|x l IH]; intros Hnd He; [by apply elem_of_nil in He|].
  apply NoDup_cons in Hnd as [Hx Hnd].
  cbn [Graph.unordered_pairs] in He. apply elem_of_app in He as [He | He].
  - apply elem_of_pairs_from in He as (b & Hb & ->).
    exists x, b. split; [by left|]. split; [by right|]. split; [|done].
    intros ->. done.
  - destruct (IH Hnd He) as (a & b & Ha & Hb & Hne & ->).
    exists a, b. split; [by right|]. split; [by right|]. done.
Qed.

Lemma NoDup_pairs_from a l : a ∉ l -> NoDup l -> NoDup (Graph.pairs_from a l).
Proof.
  intros Ha Hnd. unfold Graph.pairs_from. apply NoDup_fmap_2_strong; [|done].
  intros b c Hb Hc Heq. apply pair_eq_inv in Heq as [[_ ?] | [-> ->]]; done.
Qed.

Lemma NoDup_unordered_pairs l : NoDup l -> NoDup (Graph.unordered_pairs l).
Proof.
  induction l as [|x l IH]; intros Hnd; [constructor|].
  apply NoDup_cons in Hnd as [Hx Hnd]. cbn [Graph.unordered_pairs].
  apply NoDup_app. split; [by apply NoDup_pairs_from|]. split; [|by apply IH].
  intros e He1 He2.
  apply elem_of_pairs_from in He1 as (b & Hb & ->).
  apply unordered_pairs_inv in He2 as (c & d & Hc & Hd & Hne & Heq); [|done].
  apply pair_eq_inv in Heq as [[-> _] | [-> _]]; done.
Qed.

Lemma increment_lookup e e' (g : gmap (gset string) nat) :
  default 0 (Graph.increment e g !! e')
  = default 0 (g !! e') + (if decide (e = e') then 1 else 0).
Proof.
  unfold Graph.increment. destruct (decide (e = e')) as [-> | Hne].
  - rewrite lookup_insert_eq. simpl. lia.
  - rewrite lookup_insert_ne by done. lia.
Qed.

Lemma foldr_increment_lookup es e (g : gmap (gset string) nat) :
  NoDup es ->
  default 0 (foldr Graph.increment g es !! e)
  = default 0 (g !! e) + (if decide (e ∈ es) then 1 else 0).
Proof.
  induction es as [|e0 es IH]; intros Hnd; cbn [foldr].
  - rewrite decide_False by apply not_elem_of_nil. lia.
  - apply NoDup_cons in Hnd as [Hnotin Hnd].
    rewrite increment_lookup, IH by done.
    destruct (decide (e0 = e)) as [-> | Hne].
    + rewrite (decide_False (P := e ∈ es)) by done.
      rewrite decide_True by (apply elem_of_cons; by left). lia.
    + destruct (decide (e ∈ es)) as [Hin | Hout].
      * rewrite decide_True by (apply elem_of_cons; by right). lia.
      * rewrite decide_False; [lia|].
        intros [? | ?]%elem_of_cons; done.
Qed.

(** What one event does to the weight of the pair [a], [b]. *)
Lemma add_event_weight tickers g a b :
  Graph.weight (Graph.add_event tickers g) a b
  = Graph.weight g a b
    + (if decide (a ∈ tickers /\ b ∈ tickers /\ a <> b) then 1 else 0).
Proof.
  unfold Graph.weight, Graph.add_event.
  rewrite foldr_increment_lookup by (apply NoDup_unordered_pairs, NoDup_elements).
  f_equal.
  destruct (decide (a ∈ tickers /\ b ∈ tickers /\ a <> b)) as [(Ha & Hb & Hne) | Hnot].
  - rewrite decide_True; [done|].
    apply elem_of_unordered_pairs; [by apply elem_of_elements .. | done].
  - rewrite decide_False; [done|].
    intros Hin. apply unordered_pairs_inv in Hin as (c & d & Hc & Hd & Hne & Heq);
      [|apply NoDup_elements].
    apply elem_of_elements in Hc, Hd.
    apply pair_eq_inv in Heq as [[-> ->] | [-> ->]]; apply Hnot; done.
Qed.

Lemma build_no_self_loop_from events g a :
  Graph.weight g a a = 0 ->
  Graph.weight (fold_left (fun g tickers => Graph.add_event tickers g) events g) a a = 0.
Proof.
  revert g. induction events as [|tickers events IH]; intros g Hg; cbn [fold_left]; [done|].
  apply IH. rewrite add_event_weight, Hg.
  rewrite decide_False; [done | intros (_ & _ & Hne); done].
Qed.

End GraphFacts.

(** C4: an event adds exactly one unit to the edge of every unordered pair
    of distinct tickers it matched, and nothing to any other pair; so the
    event matching AAPL, MSFT and NVDA adds one unit to each of AAPL-MSFT,
    AAPL-NVDA and MSFT-NVDA, leaves every other edge as it was, and no
    graph that is built has a self-loop. *)
Theorem C4_triangle_expansion :
  (forall (tickers : gset string) (g : gmap (gset string) nat) (a b : string),
      (a ∈ tickers -> b ∈ tickers -> a <> b ->
       Graph.weight (Graph.add_event tickers g) a b = Graph.weight g a b + 1)
      /\ (~ (a ∈ tickers /\ b ∈ tickers /\ a <> b) ->
          Graph.weight (Graph.add_event tickers g) a b = Graph.weight g a b))
  /\ (forall (g : gmap (gset string) nat),
         let g' := Graph.add_event {[ "AAPL"; "MSFT"; "NVDA" ]} g in
         Graph.weight g' "AAPL" "MSFT" = Graph.weight g "AAPL" "MSFT" + 1
         /\ Graph.weight g' "AAPL" "NVDA" = Graph.weight g "AAPL" "NVDA" + 1
         /\ Graph.weight g' "MSFT" "NVDA" = Graph.weight g "MSFT" "NVDA" + 1
         /\ (forall a b : string,
                ({[a; b]} : gset string) <> {[ "AAPL"; "MSFT" ]} ->
                ({[a; b]} : gset string) <> {[ "AAPL"; "NVDA" ]} ->
                ({[a; b]} : gset string) <> {[ "MSFT"; "NVDA" ]} ->
                Graph.weight g' a b = Graph.weight g a b))
  /\ (forall (events : list (gset string)) (a : string),
         Graph.weight (Graph.build events) a a = 0).
Proof.
  split; [|split].
  - intros tickers g a b. split.
    + intros Ha Hb Hne. rewrite add_event_weight. by rewrite decide_True.
    + intros Hnot. rewrite add_event_weight. rewrite decide_False by done. lia.
  - intros g g'. subst g'. rewrite !add_event_weight.
    split; [|split; [|split]].
    + rewrite decide_True; [done|]. split; [set_solver|]. split; [set_solver | done].
    + rewrite decide_True; [done|]. split; [set_solver|]. split; [set_solver | done].
    + rewrite decide_True; [done|]. split; [set_solver|]. split; [set_solver | done].
    + intros a b H1 H2 H3. rewrite add_event_weight.
      rewrite decide_False; [lia|].
      intros (Ha & Hb & Hne).
      apply elem_of_union in Ha as [Ha | Ha]; [apply elem_of_union in Ha as [Ha | Ha]|];
        apply elem_of_singleton in Ha; subst a;
        (apply elem_of_union in Hb as [Hb | Hb]; [apply elem_of_union in Hb as [Hb | Hb]|]);
        apply elem_of_singleton in Hb; subst b;
        first [by apply Hne | by apply H1 | by apply H2 | by apply H3
               | apply H1; set_solver | apply H2; set_solver | apply H3; set_solver].
  - intros events a. unfold Graph.build. apply build_no_self_loop_from.
    unfold Graph.weight. by rewrite lookup_empty.
Qed.

Lemma C4_triangle_expansion_witness :
  Graph.weight (Graph.add_event {[ "AAPL"; "MSFT"; "NVDA" ]} ∅) "NVDA" "AAPL"
  = Graph.weight ∅ "NVDA" "AAPL" + 1
  /\ Graph.weight (Graph.add_event {[ "AAPL"; "MSFT"; "NVDA" ]} ∅) "NVDA" "BTC"
     = Graph.weight ∅ "NVDA" "BTC".
Proof.
  destruct C4_triangle_expansion as (Hpair & _ & _).
  split.
  - apply (proj1 (Hpair {[ "AAPL"; "MSFT"; "NVDA" ]} ∅ "NVDA" "AAPL"));
      [set_solver | set_solver | done].
  - apply (proj2 (Hpair {[ "AAPL"; "MSFT"; "NVDA" ]} ∅ "NVDA" "BTC")).
    intros (_ & Hb & _). set_unfold. intuition discriminate.
Defined.

(* ===================================================================== *)
(** * What every writer keeps of the store *)
(* ===================================================================== *)

Section WriterFacts.

Lemma has_article_true_iff id s :
  has_article id s = true <-> In id (List.map article_id (news_articles s)).
Proof.
  unfold has_article. rewrite existsb_exists, in_map_iff. split.
  - intros (r & Hin & Heq). apply String.eqb_eq in Heq. now exists r.
  - intros (r & Heq & Hin). exists r. split; [assumption | now apply String.eqb_eq].
Qed.

Lemma has_article_false_iff id s :
  has_article id s = false <-> ~ In id (List.map article_id (news_articles s)).
Proof.
  rewrite <- has_article_true_iff. destruct (has_article id s).
  - split; [discriminate | intros H; now destruct H].
  - split; [intros _ H; discriminate | reflexivity].
Qed.

Lemma NoDup_map_filter {A B} (f : A -> B) (p : A -> bool) (l : list A) :
  NoDup (List.map f l) -> NoDup (List.map f (List.filter p l)).
Proof.
  induction l as [|a l IH]; cbn [List.map List.filter]; intros Hnd; [constructor|].
  apply NoDup_cons in Hnd as [Hnotin Hnd].
  destruct (p a); cbn [List.map]; [|now apply IH].
  apply NoDup_cons. split; [|now apply IH].
  intros Hin. apply Hnotin.
  apply list_elem_of_In in Hin. apply list_elem_of_In.
  apply in_map_iff in Hin as (x & Hx & Hin). apply filter_In in Hin as [Hin _].
  apply in_map_iff. now exists x.
Qed.

Lemma NoDup_mentions (names : watchlist) text :
  NoDup (List.map snd names) -> NoDup (mentions names text).
Proof. apply NoDup_map_filter. Qed.

Lemma grows_refl s : grows s s.
Proof. exists [], []. now rewrite !app_nil_r. Qed.

Lemma grows_trans s1 s2 s3 : grows s1 s2 -> grows s2 s3 -> grows s1 s3.
Proof.
  intros (r1 & m1 & Hr1 & Hm1) (r2 & m2 & Hr2 & Hm2).
  exists (r1 ++ r2)%list, (m1 ++ m2)%list.
  now rewrite Hr2, Hm2, Hr1, Hm1, <- !app_assoc.
Qed.

Lemma grows_covers s s' : grows s s' -> covers s s'.
Proof.
  intros (rows & ms & Hr & _) id. rewrite !has_article_true_iff, Hr, map_app, in_app_iff.
  now left.
Qed.

(** ** One item *)

Lemma gdelt_save_article_step strptime art s :
  snd (Gdelt.save_article strptime art s) = s
  \/ writer_step Gdelt.COMPANY_NAMES s (snd (Gdelt.save_article strptime art s)).
Proof.
  destruct art as [[url|] t [published|]]; try (left; reflexivity).
  destruct (Py.truthy published) eqn:Ht;
    [|left; unfold Gdelt.save_article; run_db; now rewrite Ht].
  destruct (strptime (Py.rstrip_char "Z" (Py.remove_char "T" published))) as [ts|] eqn:Hp;
    [|left; unfold Gdelt.save_article; run_db; rewrite Ht; run_db; now rewrite Hp].
  set (title0 := match t with Some x => x | None => "" end).
  assert (Heval : Gdelt.save_article strptime (Gdelt.Article (Some url) t (Some published)) s
                  = Gdelt.save_article strptime
                      (Gdelt.Article (Some url) (Some title0) (Some published)) s)
    by (now destruct t).
  rewrite Heval, (gdelt_save_article_eval _ _ _ _ ts) by assumption.
  destruct (mentions Gdelt.COMPANY_NAMES title0) as [|tk found] eqn:Hm; [now left|].
  right. destruct (has_article (Gdelt.hash_id url) s) eqn:Hdup.
  - right. exists (Gdelt.hash_id url), title0. rewrite Hm. now repeat split.
  - left. exists (Gdelt.hash_id url), title0, ts. rewrite Hm. now repeat split.
Qed.

Lemma rss_poll_entry_cases mktime fromtimestamp now e s :
  (exists k, Rss.poll_entry mktime fromtimestamp now e s = (Val k, s))
  \/ (exists x, (x = OverflowError \/ x = ValueError)
                 /\ Rss.poll_entry mktime fromtimestamp now e s = (Exc x, s))
  \/ (fst (Rss.poll_entry mktime fromtimestamp now e s) = Val 1
      /\ fresh_insert Rss.COMPANY_NAMES s (snd (Rss.poll_entry mktime fromtimestamp now e s))).
Proof.
  destruct e as [t l pp].
  set (title0 := match t with Some x => x | None => "" end).
  set (link := match l with Some x => x | None => "" end).
  destruct (negb (Py.truthy title0) || negb (Py.truthy link)) eqn:Hskip.
  { left. exists 0. unfold Rss.poll_entry.
    cbn [Rss.entry_title Rss.entry_link]. fold title0 link. now rewrite Hskip. }
  apply orb_false_iff in Hskip as [Ht Hl].
  apply negb_false_iff in Ht, Hl.
  assert (Heval : Rss.poll_entry mktime fromtimestamp now (Rss.Entry t l pp) s
                  = Rss.poll_entry mktime fromtimestamp now (Rss.Entry (Some title0) (Some link) pp) s)
    by (now destruct t, l).
  rewrite Heval.
  destruct (rss_entry_time mktime fromtimestamp now pp) as [ts|] eqn:Hts.
  - rewrite (rss_poll_entry_eval _ _ _ _ _ pp ts) by assumption.
    destruct (mentions Rss.COMPANY_NAMES title0) as [|tk found] eqn:Hm;
      [left; now exists 0|].
    destruct (has_article (Rss.hash_id link) s) eqn:Hdup; [left; now exists 1|].
    right; right. split; [reflexivity|].
    exists (Rss.hash_id link), title0, ts. rewrite Hm. now repeat split.
  - right; left. destruct pp as [p|]; [|discriminate].
    rewrite rss_poll_entry_time_raises by assumption.
    destruct (mktime p); [exists ValueError | exists OverflowError]; auto.
Qed.

Lemma twitter_save_tweet_cases strptime tw s :
  Twitter.save_tweet strptime tw s = (Val 0, s)
  \/ Twitter.save_tweet strptime tw s = (Exc ValueError, s)
  \/ (fst (Twitter.save_tweet strptime tw s) = Val 1
      /\ fresh_insert Twitter.COMPANY_NAMES s (snd (Twitter.save_tweet strptime tw s))).
Proof.
  destruct (Twitter.too_small tw) eqn:Hs;
    [left; unfold Twitter.save_tweet; now rewrite Hs|].
  destruct (strptime (Twitter.tw_created_at tw)) as [ts|] eqn:Hp;
    [|right; left; unfold Twitter.save_tweet; now rewrite Hs, Hp].
  rewrite (twitter_save_tweet_eval _ _ ts) by assumption.
  destruct (mentions Twitter.COMPANY_NAMES (Twitter.tw_text tw)) as [|tk found] eqn:Hm;
    [now left|].
  destruct (has_article (Twitter.hash_id (Twitter.tw_id tw)) s) eqn:Hdup; [now left|].
  right; right. split; [reflexivity|].
  exists (Twitter.hash_id (Twitter.tw_id tw)), (Twitter.tw_text tw), ts.
  rewrite Hm. now repeat split.
Qed.

(** ** The loops *)

Lemma gdelt_save_to_db_steps strptime arts s :
  rtc (writer_step Gdelt.COMPANY_NAMES) s (snd (Gdelt.save_to_db strptime arts s)).
Proof.
  unfold Gdelt.save_to_db. revert s.
  induction arts as [|art arts IH]; intros s; cbn [for_each]; [apply rtc_refl|].
  unfold bind. pose proof (gdelt_save_article_step strptime art s) as Hstep.
  destruct (Gdelt.save_article strptime art s) as [[u|e] s1]; cbn [snd] in *.
  - destruct Hstep as [-> | Hstep]; [apply IH | eapply rtc_l; [exact Hstep | apply IH]].
  - destruct Hstep as [-> | Hstep]; [apply rtc_refl | now apply rtc_once].
Qed.

Lemma fresh_steps_are_writer_steps names s s' :
  rtc (fresh_insert names) s s' -> rtc (writer_step names) s s'.
Proof. apply rtc_subrel. intros x y H. now left. Qed.

Lemma rss_poll_entry_steps mktime fromtimestamp now e s :
  rtc (fresh_insert Rss.COMPANY_NAMES) s (snd (Rss.poll_entry mktime fromtimestamp now e s)).
Proof.
  destruct (rss_poll_entry_cases mktime fromtimestamp now e s)
    as [[k ->] | [(x & _ & ->) | [_ H]]];
    [apply rtc_refl | apply rtc_refl | now apply rtc_once].
Qed.

Lemma rss_poll_entries_steps mktime fromtimestamp now l count s :
  rtc (fresh_insert Rss.COMPANY_NAMES) s (snd (Rss.poll_entries mktime fromtimestamp now l count s)).
Proof.
  revert count s. induction l as [|e l IH]; intros count s; cbn [Rss.poll_entries];
    [apply rtc_refl|].
  unfold bind. pose proof (rss_poll_entry_steps mktime fromtimestamp now e s) as Hstep.
  destruct (Rss.poll_entry mktime fromtimestamp now e s) as [[k|x] s1]; cbn [snd] in *;
    [|exact Hstep].
  etransitivity; [exact Hstep | apply IH].
Qed.

Lemma rss_poll_feeds_steps mktime fromtimestamp parse now urls count s :
  rtc (fresh_insert Rss.COMPANY_NAMES) s (snd (Rss.poll_feeds mktime fromtimestamp parse now urls count s)).
Proof.
  revert count s. induction urls as [|url urls IH]; intros count s; cbn [Rss.poll_feeds];
    [apply rtc_refl|].
  unfold bind, Rss.poll_feed at 1.
  destruct (parse url) as [|entries]; [apply rtc_refl|].
  pose proof (rss_poll_entries_steps mktime fromtimestamp now entries count s) as Hstep.
  destruct (Rss.poll_entries mktime fromtimestamp now entries count s) as [[k|x] s1]; cbn [snd] in *;
    [|exact Hstep].
  etransitivity; [exact Hstep | apply IH].
Qed.

Lemma twitter_save_tweet_steps strptime tw s :
  rtc (fresh_insert Twitter.COMPANY_NAMES) s (snd (Twitter.save_tweet strptime tw s)).
Proof.
  destruct (twitter_save_tweet_cases strptime tw s) as [-> | [-> | [_ H]]];
    [apply rtc_refl | apply rtc_refl | now apply rtc_once].
Qed.

Lemma twitter_save_loop_steps strptime tweets added s :
  rtc (fresh_insert Twitter.COMPANY_NAMES) s (snd (Twitter.save_loop strptime tweets added s)).
Proof.
  revert added s. induction tweets as [|tw tweets IH]; intros added s;
    cbn [Twitter.save_loop]; [apply rtc_refl|].
  unfold bind. pose proof (twitter_save_tweet_steps strptime tw s) as Hstep.
  destruct (Twitter.save_tweet strptime tw s) as [[k|x] s1]; cbn [snd] in *;
    [|exact Hstep].
  etransitivity; [exact Hstep | apply IH].
Qed.

Lemma twitter_poll_loop_steps strptime fromtimestamp interval turns p s :
  rtc (fresh_insert Twitter.COMPANY_NAMES) s
      (snd (Twitter.poll_loop strptime fromtimestamp interval turns p s)).
Proof.
  revert p s. induction turns as [|t turns IH]; intros p s; cbn [Twitter.poll_loop];
    [apply rtc_refl|].
  destruct (Twitter.fetched t) as [[|tw tweets]|e]; [apply IH | |].
  - unfold bind, Twitter.save_to_db.
    pose proof (twitter_save_loop_steps strptime (tw :: tweets) 0 s) as Hstep.
    destruct (Twitter.save_loop strptime (tw :: tweets) 0 s) as [[k|x] s1]; cbn [snd] in *;
      [|exact Hstep].
    etransitivity; [exact Hstep | apply IH].
  - destruct e; try apply rtc_refl. apply IH.
Qed.

(** ** What a step keeps *)

Lemma rtc_keeps (R : store -> store -> Prop) (P : store -> Prop) :
  (forall s s', R s s' -> P s -> P s') ->
  forall s s', rtc R s s' -> P s -> P s'.
Proof. intros Hstep s s' Hrtc. induction Hrtc; eauto. Qed.

Lemma writer_step_grows names s s' : writer_step names s s' -> grows s s'.
Proof.
  intros [(id & t & ts & _ & _ & ->) | (id & t & _ & _ & ->)].
  - now eexists _, _.
  - exists [], (List.map (MentionRow id) (mentions names t)).
    cbn [news_articles ticker_mentions]. now rewrite app_nil_r.
Qed.

Lemma writer_steps_grow names s s' : rtc (writer_step names) s s' -> grows s s'.
Proof.
  induction 1 as [|s1 s2 s3 Hstep _ IH]; [apply grows_refl|].
  eapply grows_trans; [eapply writer_step_grows; eassumption | exact IH].
Qed.

Lemma writer_step_ids_unique names s s' :
  writer_step names s s' -> ids_unique s -> ids_unique s'.
Proof.
  unfold ids_unique.
  intros [(id & t & ts & _ & Hfresh & ->) | (id & t & _ & _ & ->)] Hnd; [|exact Hnd].
  cbn [news_articles]. rewrite map_app. cbn [List.map article_id].
  apply NoDup_app. split; [exact Hnd|]. split; [|apply NoDup_singleton].
  intros x Hx Hx'. apply list_elem_of_singleton in Hx'. subst x.
  apply has_article_false_iff in Hfresh. apply Hfresh. now apply list_elem_of_In.
Qed.

Lemma writer_step_mentions_refer names s s' :
  writer_step names s s' -> mentions_refer s -> mentions_refer s'.
Proof.
  intros Hstep Href m Hin.
  pose proof (grows_covers _ _ (writer_step_grows _ _ _ Hstep)) as Hcov.
  destruct Hstep as [(id & t & ts & _ & _ & ->) | (id & t & _ & Hdup & ->)];
    cbn [ticker_mentions] in Hin; apply in_app_iff in Hin as [Hin | Hin].
  - apply Hcov. now apply Href.
  - apply in_map_iff in Hin as (tk & <- & _). cbn [mention_article_id].
    apply has_article_true_iff. cbn [news_articles]. rewrite map_app, in_app_iff.
    right. now left.
  - apply Hcov. now apply Href.
  - apply in_map_iff in Hin as (tk & <- & _). exact Hdup.
Qed.

Lemma writer_step_articles_mentioned names s s' :
  writer_step names s s' -> articles_mentioned s -> articles_mentioned s'.
Proof.
  intros [(id & t & ts & Hm & _ & ->) | (id & t & _ & _ & ->)] Hall r Hin;
    cbn [news_articles ticker_mentions] in *.
  - apply in_app_iff in Hin as [Hin | [<- | []]].
    + destruct (Hall r Hin) as (m & Hmin & Heq). exists m. split; [|exact Heq].
      apply in_app_iff. now left.
    + destruct (mentions names t) as [|tk found]; [contradiction|].
      exists (MentionRow id tk). split; [|reflexivity].
      apply in_app_iff. right. now left.
  - destruct (Hall r Hin) as (m & Hmin & Heq). exists m. split; [|exact Heq].
    apply in_app_iff. now left.
Qed.

Lemma fresh_insert_mentions_unique names s s' :
  NoDup (List.map snd names) ->
  fresh_insert names s s' ->
  mentions_refer s /\ mentions_unique s -> mentions_refer s' /\ mentions_unique s'.
Proof.
  intros Hnames Hstep [Href Hnd].
  split; [eapply writer_step_mentions_refer; [left; exact Hstep | exact Href]|].
  destruct Hstep as (id & t & ts & _ & Hfresh & ->).
  unfold mentions_unique in *. cbn [ticker_mentions].
  apply NoDup_app. split; [exact Hnd|]. split.
  - intros m Hm Hm'. apply list_elem_of_In in Hm, Hm'.
    apply in_map_iff in Hm' as (tk & <- & _).
    apply Href in Hm. cbn [mention_article_id] in Hm. congruence.
  - apply NoDup_fmap_2; [|now apply NoDup_mentions].
    intros x y Heq. now injection Heq.
Qed.

End WriterFacts.

Section WriterInvariants.

Lemma empty_store_integrity : store_integrity empty_store.
Proof.
  split; [apply NoDup_nil_2|]. split; intros x Hin; destruct Hin.
Qed.

Lemma writer_steps_keep_integrity names s s' :
  rtc (writer_step names) s s' -> store_integrity s -> store_integrity s'.
Proof.
  apply (rtc_keeps (writer_step names) store_integrity).
  intros x y Hstep (Hids & Href & Hall).
  split; [eapply writer_step_ids_unique; eassumption|].
  split; [eapply writer_step_mentions_refer | eapply writer_step_articles_mentioned];
    eassumption.
Qed.

Lemma watchlist_tickers_distinct :
  NoDup (List.map snd Rss.COMPANY_NAMES) /\ NoDup (List.map snd Twitter.COMPANY_NAMES).
Proof.
  split; apply (bool_decide_unpack _); vm_compute; exact I.
Qed.

Lemma fresh_steps_keep_mentions_unique names s s' :
  NoDup (List.map snd names) ->
  rtc (fresh_insert names) s s' ->
  mentions_refer s /\ mentions_unique s -> mentions_refer s' /\ mentions_unique s'.
Proof.
  intros Hnames.
  apply (rtc_keeps (fresh_insert names) (fun x => mentions_refer x /\ mentions_unique x)).
  intros x y. now apply fresh_insert_mentions_unique.
Qed.

Lemma writer_steps_store_matched names s s' :
  rtc (writer_step names) s s' ->
  forall r, In r (news_articles s') -> In r (news_articles s) \/ mentions names (title r) <> [].
Proof.
  induction 1 as [|s1 s2 s3 Hstep _ IH]; intros r Hin; [now left|].
  destruct (IH r Hin) as [Hin2 | Hm]; [|now right].
  destruct Hstep as [(id & t & ts & Hm & _ & ->) | (id & t & _ & _ & ->)];
    cbn [news_articles] in Hin2; [|now left].
  apply in_app_iff in Hin2 as [Hin2 | [<- | []]]; [now left | now right].
Qed.

Lemma gdelt_save_article_raises strptime art s e s' :
  Gdelt.save_article strptime art s = (Exc e, s') -> e = KeyError \/ e = ValueError.
Proof.
  destruct art as [[url|] t [published|]];
    [| discriminate | intros H; injection H as <- _; now left
     | intros H; injection H as <- _; now left].
  destruct (Py.truthy published) eqn:Ht;
    [|unfold Gdelt.save_article; run_db; rewrite Ht; discriminate].
  destruct (strptime (Py.rstrip_char "Z" (Py.remove_char "T" published))) as [ts|] eqn:Hp.
  - assert (Heval : Gdelt.save_article strptime (Gdelt.Article (Some url) t (Some published)) s
                    = Gdelt.save_article strptime
                        (Gdelt.Article (Some url)
                           (Some (match t with Some x => x | None => "" end))
                           (Some published)) s)
      by (now destruct t).
    rewrite Heval, (gdelt_save_article_eval _ _ _ _ ts) by assumption.
    destruct (mentions Gdelt.COMPANY_NAMES _); discriminate.
  - unfold Gdelt.save_article. run_db. rewrite Ht. run_db. rewrite Hp.
    intros H. injection H as <- _. now right.
Qed.

Lemma gdelt_save_to_db_raises strptime arts s e s' :
  Gdelt.save_to_db strptime arts s = (Exc e, s') -> e = KeyError \/ e = ValueError.
Proof.
  unfold Gdelt.save_to_db. revert s.
  induction arts as [|art arts IH]; intros s; cbn [for_each]; [discriminate|].
  unfold bind. destruct (Gdelt.save_article strptime art s) as [[u|e0] s1] eqn:E.
  - apply IH.
  - intros H. injection H as <- _. eapply gdelt_save_article_raises; eassumption.
Qed.

Lemma rss_poll_entry_raises mktime fromtimestamp now entry0 s e s' :
  Rss.poll_entry mktime fromtimestamp now entry0 s = (Exc e, s') ->
  e = OverflowError \/ e = ValueError.
Proof.
  destruct (rss_poll_entry_cases mktime fromtimestamp now entry0 s)
    as [[k ->] | [(x & Hx & ->) | [Hfst _]]].
  - discriminate.
  - intros H. now injection H as <- _.
  - intros H. rewrite H in Hfst. discriminate.
Qed.

Lemma rss_poll_entries_raises mktime fromtimestamp now l count s e s' :
  Rss.poll_entries mktime fromtimestamp now l count s = (Exc e, s') ->
  e = OverflowError \/ e = ValueError.
Proof.
  revert count s. induction l as [|entry0 l IH]; intros count s; cbn [Rss.poll_entries];
    [discriminate|].
  unfold bind. destruct (Rss.poll_entry mktime fromtimestamp now entry0 s) as [[k|e0] s1] eqn:E.
  - apply IH.
  - intros H. injection H as <- _. eapply rss_poll_entry_raises; eassumption.
Qed.

Lemma rss_poll_feeds_raises mktime fromtimestamp parse now urls count s e s' :
  Rss.poll_feeds mktime fromtimestamp parse now urls count s = (Exc e, s') ->
  e = OverflowError \/ e = ValueError \/ e = FeedError.
Proof.
  revert count s. induction urls as [|url urls IH]; intros count s; cbn [Rss.poll_feeds];
    [discriminate|].
  unfold bind, Rss.poll_feed at 1.
  destruct (parse url) as [|entries]; [intros H; injection H as <- _; now right; right|].
  destruct (Rss.poll_entries mktime fromtimestamp now entries count s) as [[k|e0] s1] eqn:E.
  - apply IH.
  - intros H. injection H as <- _.
    destruct (rss_poll_entries_raises _ _ _ _ _ _ _ _ E) as [-> | ->]; auto.
Qed.

End WriterInvariants.

(** X1: whatever the batch and however the run ends, the three writers
    and the microblog loop keep the tables fitting together: the article
    ids stay unique, every mention row refers to a stored article, and
    every stored article has a mention row. *)
Theorem writers_keep_store_integrity :
  forall s : store,
    store_integrity s ->
    (forall strptime arts, store_integrity (snd (Gdelt.save_to_db strptime arts s)))
    /\ (forall mktime fromtimestamp parse now, store_integrity (snd (Rss.poll_once mktime fromtimestamp parse now s)))
    /\ (forall strptime tweets, store_integrity (snd (Twitter.save_to_db strptime tweets s)))
    /\ (forall strptime fromtimestamp interval turns,
           store_integrity
             (snd (Twitter.poll_twitter strptime fromtimestamp interval turns s))).
Proof.
  intros s Hs. repeat apply conj; intros.
  - eapply writer_steps_keep_integrity; [apply gdelt_save_to_db_steps | exact Hs].
  - eapply writer_steps_keep_integrity; [|exact Hs].
    apply fresh_steps_are_writer_steps, rss_poll_feeds_steps.
  - eapply writer_steps_keep_integrity; [|exact Hs].
    apply fresh_steps_are_writer_steps, twitter_save_loop_steps.
  - eapply writer_steps_keep_integrity; [|exact Hs].
    apply fresh_steps_are_writer_steps, twitter_poll_loop_steps.
Qed.

Lemma writers_keep_store_integrity_witness :
  store_integrity (snd (Gdelt.save_to_db noon [apple_article; apple_article] empty_store))
  /\ store_integrity (snd (Rss.poll_once mktime_july fromtimestamp_utc second_feed_raises 1752500000%Z empty_store))
  /\ store_integrity (snd (Twitter.save_to_db noon [bitcoin_tweet; small_account_tweet] empty_store)).
Proof.
  destruct (writers_keep_store_integrity empty_store empty_store_integrity)
    as (Hgdelt & Hrss & Htw & _).
  split; [apply Hgdelt | split; [apply Hrss | apply Htw]].
Defined.

(** X2: the writers only append.  After any run, failed or not, both
    tables are the tables before the run followed by new rows: no row is
    deleted, changed or moved. *)
Theorem writers_only_append :
  forall s : store,
    (forall strptime arts, grows s (snd (Gdelt.save_to_db strptime arts s)))
    /\ (forall mktime fromtimestamp parse now, grows s (snd (Rss.poll_once mktime fromtimestamp parse now s)))
    /\ (forall strptime tweets, grows s (snd (Twitter.save_to_db strptime tweets s)))
    /\ (forall strptime fromtimestamp interval turns,
           grows s (snd (Twitter.poll_twitter strptime fromtimestamp interval turns s))).
Proof.
  intros s. repeat apply conj; intros; eapply writer_steps_grow.
  - apply gdelt_save_to_db_steps.
  - apply fresh_steps_are_writer_steps, rss_poll_feeds_steps.
  - apply fresh_steps_are_writer_steps, twitter_save_loop_steps.
  - apply fresh_steps_are_writer_steps, twitter_poll_loop_steps.
Qed.

(** X3: the feed poller and the microblog writer never write an
    (article_id, ticker) row twice: if the mention rows are distinct and
    refer to stored articles before a run, they are distinct after it. *)
Theorem feed_and_microblog_keep_mentions_unique :
  forall s : store,
    mentions_refer s -> mentions_unique s ->
    (forall mktime fromtimestamp parse now, mentions_unique (snd (Rss.poll_once mktime fromtimestamp parse now s)))
    /\ (forall strptime tweets, mentions_unique (snd (Twitter.save_to_db strptime tweets s)))
    /\ (forall strptime fromtimestamp interval turns,
           mentions_unique
             (snd (Twitter.poll_twitter strptime fromtimestamp interval turns s))).
Proof.
  intros s Href Hnd. destruct watchlist_tickers_distinct as [Hrss Htw].
  repeat apply conj; intros.
  - eapply fresh_steps_keep_mentions_unique; [exact Hrss | apply rss_poll_feeds_steps | auto].
  - eapply fresh_steps_keep_mentions_unique; [exact Htw | apply twitter_save_loop_steps | auto].
  - eapply fresh_steps_keep_mentions_unique; [exact Htw | apply twitter_poll_loop_steps | auto].
Qed.

Lemma feed_and_microblog_keep_mentions_unique_witness :
  mentions_unique
    (snd (Rss.poll_once mktime_july fromtimestamp_utc second_feed_empty 1752500000%Z empty_store))
  /\ mentions_unique
       (snd (Twitter.save_to_db noon [bitcoin_tweet; bitcoin_tweet] empty_store)).
Proof.
  destruct (feed_and_microblog_keep_mentions_unique empty_store
              (proj1 (proj2 empty_store_integrity)) (NoDup_nil_2 (A := mention_row)))
    as (Hrss & Htw & _).
  split; [apply Hrss | apply Htw].
Defined.

(** X4: only matched items are stored.  Every article row that a writer
    adds has a title that matches the writer's watch-list. *)
Theorem writers_store_only_matched_items :
  forall (s : store) (r : article_row),
    (forall strptime arts,
        In r (news_articles (snd (Gdelt.save_to_db strptime arts s))) ->
        In r (news_articles s) \/ mentions Gdelt.COMPANY_NAMES (title r) <> [])
    /\ (forall mktime fromtimestamp parse now,
           In r (news_articles (snd (Rss.poll_once mktime fromtimestamp parse now s))) ->
           In r (news_articles s) \/ mentions Rss.COMPANY_NAMES (title r) <> [])
    /\ (forall strptime tweets,
           In r (news_articles (snd (Twitter.save_to_db strptime tweets s))) ->
           In r (news_articles s) \/ mentions Twitter.COMPANY_NAMES (title r) <> []).
Proof.
  intros s r. repeat apply conj; intros *; apply writer_steps_store_matched.
  - apply gdelt_save_to_db_steps.
  - apply fresh_steps_are_writer_steps, rss_poll_feeds_steps.
  - apply fresh_steps_are_writer_steps, twitter_save_loop_steps.
Qed.

Lemma writers_store_only_matched_items_witness :
  In (ArticleRow (Twitter.hash_id "1944926152071495802") "Bitcoin is not done yet" 1752494400%Z)
     (news_articles empty_store)
  \/ mentions Twitter.COMPANY_NAMES
       (title (ArticleRow (Twitter.hash_id "1944926152071495802") "Bitcoin is not done yet"
                          1752494400%Z)) <> [].
Proof.
  apply (proj2 (proj2 (writers_store_only_matched_items empty_store _)) noon [bitcoin_tweet]).
  vm_compute. now left.
Defined.

(** X5: the duplicate-key exception never leaves a writer: however a
    batch of the global-news writer, a cycle of the feed poller or a
    batch of the microblog writer ends, it does not end by the
    [ConstraintException] of a primary key. *)
Theorem duplicate_key_error_never_leaves_a_writer :
  (forall strptime arts s,
      is_constraint_exception (fst (Gdelt.save_to_db strptime arts s)) = false)
  /\ (forall mktime fromtimestamp parse now s,
         is_constraint_exception (fst (Rss.poll_once mktime fromtimestamp parse now s)) = false)
  /\ (forall strptime tweets s,
         is_constraint_exception (fst (Twitter.save_to_db strptime tweets s)) = false).
Proof.
  repeat apply conj.
  - intros strptime arts s.
    destruct (Gdelt.save_to_db strptime arts s) as [[u|e] s'] eqn:E; [reflexivity|].
    now destruct (gdelt_save_to_db_raises _ _ _ _ _ E) as [-> | ->].
  - intros mktime fromtimestamp parse now s.
    destruct (Rss.poll_once mktime fromtimestamp parse now s) as [[n|e] s'] eqn:E; [reflexivity|].
    now destruct (rss_poll_feeds_raises _ _ _ _ _ _ _ _ _ E) as [-> | [-> | ->]].
  - intros strptime tweets s.
    destruct (Twitter.save_to_db strptime tweets s) as [[n|e] s'] eqn:E; [reflexivity|].
    now rewrite (save_loop_raises _ _ _ _ _ _ E).
Qed.

(* ===================================================================== *)
(** * Counts, and running a batch again *)
(* ===================================================================== *)

Section RerunFacts.

Lemma covers_refl s : covers s s.
Proof. now intros id. Qed.

Lemma covers_trans s1 s2 s3 : covers s1 s2 -> covers s2 s3 -> covers s1 s3.
Proof. intros H12 H23 id H. auto. Qed.

Lemma fresh_steps_cover names s s' : rtc (fresh_insert names) s s' -> covers s s'.
Proof.
  intros H. apply grows_covers. eapply writer_steps_grow.
  apply fresh_steps_are_writer_steps. exact H.
Qed.

(** ** The microblog writer, item by item *)

Lemma twitter_save_tweet_closed strptime tw s :
  Twitter.save_tweet strptime tw s
  = if Twitter.too_small tw then (Val 0, s)
    else match strptime (Twitter.tw_created_at tw) with
         | None => (Exc ValueError, s)
         | Some ts =>
             match mentions Twitter.COMPANY_NAMES (Twitter.tw_text tw) with
             | [] => (Val 0, s)
             | found =>
                 if has_article (Twitter.hash_id (Twitter.tw_id tw)) s then (Val 0, s)
                 else (Val 1,
                       Store (news_articles s
                              ++ [ArticleRow (Twitter.hash_id (Twitter.tw_id tw))
                                             (Twitter.tw_text tw) ts])
                             (ticker_mentions s
                              ++ List.map (MentionRow (Twitter.hash_id (Twitter.tw_id tw)))
                                          found))
             end
         end.
Proof.
  destruct (Twitter.too_small tw) eqn:Hs; [now apply save_tweet_too_small|].
  destruct (strptime (Twitter.tw_created_at tw)) as [ts|] eqn:Hp.
  - now apply twitter_save_tweet_eval.
  - unfold Twitter.save_tweet. now rewrite Hs, Hp.
Qed.

Lemma twitter_save_tweet_count strptime tw s k s' :
  Twitter.save_tweet strptime tw s = (Val k, s') ->
  List.length (news_articles s') = List.length (news_articles s) + k
  /\ List.length (ticker_mentions s) + k <= List.length (ticker_mentions s').
Proof.
  rewrite twitter_save_tweet_closed.
  destruct (Twitter.too_small tw); [intros H; injection H as <- <-; lia|].
  destruct (strptime (Twitter.tw_created_at tw)) as [ts|]; [|discriminate].
  destruct (mentions Twitter.COMPANY_NAMES (Twitter.tw_text tw)) as [|tk found];
    [intros H; injection H as <- <-; lia|].
  destruct (has_article _ s); intros H; injection H as <- <-; [lia|].
  cbn [news_articles ticker_mentions]. rewrite !length_app. cbn [List.length List.map]. lia.
Qed.

Lemma twitter_save_tweet_again strptime tw s k s1 s2 :
  Twitter.save_tweet strptime tw s = (Val k, s1) ->
  covers s1 s2 ->
  Twitter.save_tweet strptime tw s2 = (Val 0, s2).
Proof.
  rewrite !twitter_save_tweet_closed.
  destruct (Twitter.too_small tw); [reflexivity|].
  destruct (strptime (Twitter.tw_created_at tw)) as [ts|]; [|discriminate].
  destruct (mentions Twitter.COMPANY_NAMES (Twitter.tw_text tw)) as [|tk found];
    [reflexivity|].
  intros H Hcov.
  assert (Hin : has_article (Twitter.hash_id (Twitter.tw_id tw)) s1 = true).
  { destruct (has_article (Twitter.hash_id (Twitter.tw_id tw)) s) eqn:Hdup;
      injection H as _ <-; [exact Hdup|].
    apply has_article_true_iff. cbn [news_articles]. rewrite map_app, in_app_iff.
    right. now left. }
  now rewrite (Hcov _ Hin).
Qed.

Lemma twitter_save_loop_count strptime tweets added s n s' :
  Twitter.save_loop strptime tweets added s = (Val n, s') ->
  List.length (news_articles s') + added = List.length (news_articles s) + n
  /\ List.length (ticker_mentions s) + n <= List.length (ticker_mentions s') + added.
Proof.
  revert added s. induction tweets as [|tw tweets IH]; intros added s;
    cbn [Twitter.save_loop].
  - intros H. injection H as <- <-. lia.
  - unfold bind. destruct (Twitter.save_tweet strptime tw s) as [[k|e] s1] eqn:E;
      [|discriminate].
    intros H. apply IH in H. apply twitter_save_tweet_count in E. lia.
Qed.

Lemma twitter_save_loop_again strptime tweets added s n s1 s2 :
  Twitter.save_loop strptime tweets added s = (Val n, s1) ->
  covers s1 s2 ->
  forall added', Twitter.save_loop strptime tweets added' s2 = (Val added', s2).
Proof.
  revert added s. induction tweets as [|tw tweets IH]; intros added s;
    cbn [Twitter.save_loop]; [reflexivity|].
  unfold bind. destruct (Twitter.save_tweet strptime tw s) as [[k|e] s0] eqn:E;
    [|discriminate].
  intros H Hcov added'.
  assert (Hcov0 : covers s0 s2).
  { eapply covers_trans; [|exact Hcov].
    pose proof (twitter_save_loop_steps strptime tweets (added + k) s0) as Hsteps.
    rewrite H in Hsteps. now apply fresh_steps_cover in Hsteps. }
  rewrite (twitter_save_tweet_again _ _ _ _ _ _ E Hcov0), Nat.add_0_r.
  eapply IH; eassumption.
Qed.

(** ** The feed poller, entry by entry *)

Lemma rss_poll_entry_closed mktime fromtimestamp now e s :
  Rss.poll_entry mktime fromtimestamp now e s
  = let title0 := match Rss.entry_title e with Some t => t | None => "" end in
    let link := match Rss.entry_link e with Some l => l | None => "" end in
    if negb (Py.truthy title0) || negb (Py.truthy link) then (Val 0, s)
    else match rss_entry_time mktime fromtimestamp now (Rss.published_parsed e) with
         | None =>
             (Exc (match Rss.published_parsed e with
                   | Some p => match mktime p with
                               | Some _ => ValueError
                               | None => OverflowError
                               end
                   | None => OtherError
                   end), s)
         | Some ts =>
             match mentions Rss.COMPANY_NAMES title0 with
             | [] => (Val 0, s)
             | found =>
                 if has_article (Rss.hash_id link) s then (Val 1, s)
                 else (Val 1,
                       Store (news_articles s ++ [ArticleRow (Rss.hash_id link) title0 ts])
                             (ticker_mentions s
                              ++ List.map (MentionRow (Rss.hash_id link)) found))
             end
         end.
Proof.
  destruct e as [t l pp]. cbn [Rss.entry_title Rss.entry_link Rss.published_parsed].
  set (title0 := match t with Some x => x | None => "" end).
  set (link := match l with Some x => x | None => "" end).
  cbv zeta.
  destruct (negb (Py.truthy title0) || negb (Py.truthy link)) eqn:Hskip.
  { unfold Rss.poll_entry. cbn [Rss.entry_title Rss.entry_link]. fold title0 link.
    now rewrite Hskip. }
  apply orb_false_iff in Hskip as [Ht Hl]. apply negb_false_iff in Ht, Hl.
  assert (Heval : Rss.poll_entry mktime fromtimestamp now (Rss.Entry t l pp) s
                  = Rss.poll_entry mktime fromtimestamp now (Rss.Entry (Some title0) (Some link) pp) s)
    by (now destruct t, l).
  rewrite Heval.
  destruct (rss_entry_time mktime fromtimestamp now pp) as [ts|] eqn:Hts.
  - now apply rss_poll_entry_eval.
  - destruct pp as [p|]; [|discriminate].
    now apply rss_poll_entry_time_raises.
Qed.

Lemma rss_poll_entry_count mktime fromtimestamp now e s k s' :
  Rss.poll_entry mktime fromtimestamp now e s = (Val k, s') ->
  k = (if rss_entry_counted e then 1 else 0)
  /\ List.length (news_articles s') <= List.length (news_articles s) + k.
Proof.
  rewrite rss_poll_entry_closed. unfold rss_entry_counted. cbv zeta.
  destruct (Py.truthy (match Rss.entry_title e with Some t => t | None => "" end));
    cbn [negb orb andb]; [|intros H; injection H as <- <-; lia].
  destruct (Py.truthy (match Rss.entry_link e with Some l => l | None => "" end));
    cbn [negb orb andb]; [|intros H; injection H as <- <-; lia].
  destruct (rss_entry_time mktime fromtimestamp now (Rss.published_parsed e));
    [|discriminate].
  destruct (mentions Rss.COMPANY_NAMES _) as [|tk found];
    [intros H; injection H as <- <-; lia|].
  destruct (has_article _ s); intros H; injection H as <- <-; [lia|].
  cbn [news_articles]. rewrite length_app. cbn [List.length]. lia.
Qed.

Lemma rss_poll_entry_again mktime fromtimestamp now now' e s k s1 s2 :
  Rss.poll_entry mktime fromtimestamp now e s = (Val k, s1) ->
  covers s1 s2 ->
  Rss.poll_entry mktime fromtimestamp now' e s2 = (Val k, s2).
Proof.
  rewrite !rss_poll_entry_closed. cbv zeta.
  destruct (negb (Py.truthy _) || negb (Py.truthy _));
    [intros H _; now injection H as <- _|].
  unfold rss_entry_time.
  destruct (Rss.published_parsed e) as [p|].
  - destruct (mktime p) as [u|]; [|discriminate].
    destruct (fromtimestamp u) as [ts|]; [|discriminate].
    destruct (mentions Rss.COMPANY_NAMES _) as [|tk found];
      [intros H _; now injection H as <- _|].
    intros H Hcov.
    assert (Hin : k = 1 /\ has_article (Rss.hash_id
                     (match Rss.entry_link e with Some l => l | None => "" end)) s1 = true).
    { destruct (has_article _ s) eqn:Hdup; injection H as <- <-; [now split|].
      split; [reflexivity|].
      apply has_article_true_iff. cbn [news_articles]. rewrite map_app, in_app_iff.
      right. now left. }
    destruct Hin as [-> Hin]. now rewrite (Hcov _ Hin).
  - destruct (mentions Rss.COMPANY_NAMES _) as [|tk found];
      [intros H _; now injection H as <- _|].
    intros H Hcov.
    assert (Hin : k = 1 /\ has_article (Rss.hash_id
                     (match Rss.entry_link e with Some l => l | None => "" end)) s1 = true).
    { destruct (has_article _ s) eqn:Hdup; injection H as <- <-; [now split|].
      split; [reflexivity|].
      apply has_article_true_iff. cbn [news_articles]. rewrite map_app, in_app_iff.
      right. now left. }
    destruct Hin as [-> Hin]. now rewrite (Hcov _ Hin).
Qed.

End RerunFacts.

Section FeedCycleFacts.
Variable mktime : Rss.struct_time -> option Z.
Variable fromtimestamp : Z -> option datetime.
Variable parse : string -> Rss.parsed.

Lemma rss_poll_entries_count now l count s n s' :
  Rss.poll_entries mktime fromtimestamp now l count s = (Val n, s') ->
  n = count + List.length (List.filter rss_entry_counted l)
  /\ List.length (news_articles s') + count <= List.length (news_articles s) + n.
Proof.
  revert count s. induction l as [|e l IH]; intros count s; cbn [Rss.poll_entries List.filter].
  - intros H. injection H as <- <-. cbn [List.length]. lia.
  - unfold bind. destruct (Rss.poll_entry mktime fromtimestamp now e s) as [[k|x] s1] eqn:E; [|discriminate].
    intros H. apply IH in H. apply rss_poll_entry_count in E. destruct E as [-> E].
    destruct (rss_entry_counted e); cbn [List.length]; lia.
Qed.

Lemma rss_poll_feeds_count now urls count s n s' :
  Rss.poll_feeds mktime fromtimestamp parse now urls count s = (Val n, s') ->
  n = count
      + List.length (List.filter rss_entry_counted (List.flat_map (rss_feed_entries parse) urls))
  /\ List.length (news_articles s') + count <= List.length (news_articles s) + n.
Proof.
  revert count s. induction urls as [|url urls IH]; intros count s;
    cbn [Rss.poll_feeds List.flat_map].
  - intros H. injection H as <- <-. cbn [List.filter List.length]. lia.
  - unfold bind, Rss.poll_feed at 1, rss_feed_entries at 1.
    destruct (parse url) as [|entries]; [discriminate|].
    destruct (Rss.poll_entries mktime fromtimestamp now entries count s) as [[k|x] s1] eqn:E;
      [|discriminate].
    intros H. apply IH in H. apply rss_poll_entries_count in E.
    rewrite List.filter_app, length_app. lia.
Qed.

Lemma rss_poll_entries_again now now' l count s n s1 s2 :
  Rss.poll_entries mktime fromtimestamp now l count s = (Val n, s1) ->
  covers s1 s2 ->
  forall count',
    Rss.poll_entries mktime fromtimestamp now' l count' s2
    = (Val (count' + List.length (List.filter rss_entry_counted l)), s2).
Proof.
  revert count s. induction l as [|e l IH]; intros count s; cbn [Rss.poll_entries List.filter].
  - intros _ _ count'. cbn [List.length]. now rewrite Nat.add_0_r.
  - unfold bind. destruct (Rss.poll_entry mktime fromtimestamp now e s) as [[k|x] s0] eqn:E; [|discriminate].
    intros H Hcov count'.
    assert (Hcov0 : covers s0 s2).
    { eapply covers_trans; [|exact Hcov].
      pose proof (rss_poll_entries_steps mktime fromtimestamp now l (count + k) s0) as Hsteps.
      rewrite H in Hsteps. now apply fresh_steps_cover in Hsteps. }
    rewrite (rss_poll_entry_again _ _ _ now' _ _ _ _ _ E Hcov0).
    rewrite (IH _ _ H Hcov).
    apply rss_poll_entry_count in E. destruct E as [-> _].
    destruct (rss_entry_counted e); cbn [List.length]; do 2 f_equal; lia.
Qed.

Lemma rss_poll_feeds_again now now' urls count s n s1 s2 :
  Rss.poll_feeds mktime fromtimestamp parse now urls count s = (Val n, s1) ->
  covers s1 s2 ->
  forall count',
    Rss.poll_feeds mktime fromtimestamp parse now' urls count' s2
    = (Val (count' + List.length
                       (List.filter rss_entry_counted
                                    (List.flat_map (rss_feed_entries parse) urls))), s2).
Proof.
  revert count s. induction urls as [|url urls IH]; intros count s;
    cbn [Rss.poll_feeds List.flat_map].
  - intros _ _ count'. cbn [List.filter List.length]. now rewrite Nat.add_0_r.
  - unfold bind, Rss.poll_feed, rss_feed_entries at 1.
    destruct (parse url) as [|entries]; [discriminate|].
    destruct (Rss.poll_entries mktime fromtimestamp now entries count s) as [[k|x] s0] eqn:E;
      [|discriminate].
    intros H Hcov count'.
    assert (Hcov0 : covers s0 s2).
    { eapply covers_trans; [|exact Hcov].
      pose proof (rss_poll_feeds_steps mktime fromtimestamp parse now urls k s0) as Hsteps.
      rewrite H in Hsteps. now apply fresh_steps_cover in Hsteps. }
    rewrite (rss_poll_entries_again _ now' _ _ _ _ _ _ E Hcov0).
    rewrite (IH _ _ H Hcov).
    rewrite List.filter_app, length_app. do 2 f_equal. lia.
Qed.

End FeedCycleFacts.

Section BatchFacts.

Lemma for_each_app {A} (l1 l2 : list A) (body : A -> M unit) s :
  for_each (l1 ++ l2) body s
  = match for_each l1 body s with
    | (Val _, s1) => for_each l2 body s1
    | (Exc e, s1) => (Exc e, s1)
    end.
Proof.
  revert s. induction l1 as [|x l1 IH]; intros s; cbn [app for_each]; [reflexivity|].
  unfold bind. destruct (body x s) as [[u|e] s0]; [apply IH | reflexivity].
Qed.

End BatchFacts.

(** X6: the number the microblog writer returns is the number of rows it
    added to [news_articles], and it added at least that many mention
    rows. *)
Theorem twitter_added_is_rows_added :
  forall strptime tweets s n s',
    Twitter.save_to_db strptime tweets s = (Val n, s') ->
    List.length (news_articles s') = List.length (news_articles s) + n
    /\ List.length (ticker_mentions s) + n <= List.length (ticker_mentions s').
Proof.
  intros strptime tweets s n s' H. unfold Twitter.save_to_db in H.
  apply twitter_save_loop_count in H. lia.
Qed.

Lemma twitter_added_is_rows_added_witness :
  List.length (news_articles
                 (Store [ArticleRow (Twitter.hash_id "1944926152071495802")
                                    "Bitcoin is not done yet" 1752494400%Z]
                        [MentionRow (Twitter.hash_id "1944926152071495802") "BTC"]))
  = List.length (news_articles empty_store) + 1
  /\ List.length (ticker_mentions empty_store) + 1
     <= List.length (ticker_mentions
                       (Store [ArticleRow (Twitter.hash_id "1944926152071495802")
                                          "Bitcoin is not done yet" 1752494400%Z]
                              [MentionRow (Twitter.hash_id "1944926152071495802") "BTC"])).
Proof.
  apply (twitter_added_is_rows_added noon
           [bitcoin_tweet; small_account_tweet; bitcoin_tweet] empty_store).
  vm_compute. reflexivity.
Defined.

(** X7: the number a feed cycle returns is the number of entries that
    have a title, a link and a match, over all the feeds, whether they
    were new or already stored; the rows added to [news_articles] are at
    most that many. *)
Theorem rss_count_is_matched_entries :
  forall mktime fromtimestamp parse now s n s',
    Rss.poll_once mktime fromtimestamp parse now s = (Val n, s') ->
    n = List.length
          (List.filter rss_entry_counted
                       (List.flat_map (rss_feed_entries parse) Rss.RSS_FEEDS))
    /\ List.length (news_articles s') <= List.length (news_articles s) + n.
Proof.
  intros mktime fromtimestamp parse now s n s' H. unfold Rss.poll_once in H.
  apply rss_poll_feeds_count in H. lia.
Qed.

Lemma rss_count_is_matched_entries_witness :
  2 = List.length
        (List.filter rss_entry_counted
                     (List.flat_map (rss_feed_entries second_feed_empty) Rss.RSS_FEEDS))
  /\ List.length
       (news_articles (snd (Rss.poll_once mktime_july fromtimestamp_utc second_feed_empty 1752500000%Z empty_store)))
     <= List.length
          (news_articles (snd (Rss.poll_once mktime_july fromtimestamp_utc second_feed_empty 1752500000%Z
                                             empty_store))) + 2.
Proof.
  apply (rss_count_is_matched_entries mktime_july fromtimestamp_utc second_feed_empty 1752500000%Z
           (snd (Rss.poll_once mktime_july fromtimestamp_utc second_feed_empty 1752500000%Z empty_store))).
  vm_compute. reflexivity.
Defined.

(** X8: saving a batch of tweets a second time does nothing: if the
    writer returned from a batch, running it again on the store it left,
    or on any store that knows at least the same ids, adds no row and
    returns 0. *)
Theorem twitter_save_to_db_again_is_noop :
  forall strptime tweets s n s1,
    Twitter.save_to_db strptime tweets s = (Val n, s1) ->
    Twitter.save_to_db strptime tweets s1 = (Val 0, s1)
    /\ (forall s2, covers s1 s2 -> Twitter.save_to_db strptime tweets s2 = (Val 0, s2)).
Proof.
  intros strptime tweets s n s1 H. unfold Twitter.save_to_db in *. split.
  - eapply twitter_save_loop_again; [exact H | apply covers_refl].
  - intros s2 Hcov. eapply twitter_save_loop_again; eassumption.
Qed.

Lemma twitter_save_to_db_again_is_noop_witness :
  Twitter.save_to_db noon [bitcoin_tweet]
    (Store [ArticleRow (Twitter.hash_id "1944926152071495802")
                       "Bitcoin is not done yet" 1752494400%Z]
           [MentionRow (Twitter.hash_id "1944926152071495802") "BTC"])
  = (Val 0,
     Store [ArticleRow (Twitter.hash_id "1944926152071495802")
                       "Bitcoin is not done yet" 1752494400%Z]
           [MentionRow (Twitter.hash_id "1944926152071495802") "BTC"]).
Proof.
  apply (twitter_save_to_db_again_is_noop noon [bitcoin_tweet] empty_store 1).
  vm_compute. reflexivity.
Defined.

(** X9: polling the same feeds a second time stores nothing and still
    returns the same count: if a cycle returned, the next cycle over the
    same answers of the feeds, at any later clock reading, leaves the
    store as it is and counts the same entries. *)
Theorem rss_poll_once_again_keeps_store_and_count :
  forall mktime fromtimestamp parse now now' s n s1,
    Rss.poll_once mktime fromtimestamp parse now s = (Val n, s1) ->
    Rss.poll_once mktime fromtimestamp parse now' s1 = (Val n, s1).
Proof.
  intros mktime fromtimestamp parse now now' s n s1 H. unfold Rss.poll_once in *.
  rewrite (rss_poll_feeds_again _ _ _ _ now' _ _ _ _ _ _ H (covers_refl s1)).
  apply rss_poll_feeds_count in H. destruct H as [-> _]. reflexivity.
Qed.

Lemma rss_poll_once_again_keeps_store_and_count_witness :
  Rss.poll_once mktime_july fromtimestamp_utc second_feed_empty 1752600000%Z
    (snd (Rss.poll_once mktime_july fromtimestamp_utc second_feed_empty 1752500000%Z empty_store))
  = (Val 2, snd (Rss.poll_once mktime_july fromtimestamp_utc second_feed_empty 1752500000%Z empty_store)).
Proof.
  apply (rss_poll_once_again_keeps_store_and_count mktime_july fromtimestamp_utc second_feed_empty
           1752500000%Z 1752600000%Z empty_store).
  vm_compute. reflexivity.
Defined.

(** X10: one bad article ends the global-news batch.  When the articles
    before it were saved, an article without the [url] key raises
    [KeyError] whatever else it holds, and an article whose [seendate]
    [strptime] cannot read raises [ValueError] whether or not its title
    matches; the rows of the articles before it stay, the articles after
    it are not looked at. *)
Theorem gdelt_bad_article_ends_batch :
  forall strptime pre s s1,
    Gdelt.save_to_db strptime pre s = (Val tt, s1) ->
    (forall t d post,
        Gdelt.save_to_db strptime (pre ++ Gdelt.Article None t d :: post) s
        = (Exc KeyError, s1))
    /\ (forall url t published post,
           Py.truthy published = true ->
           strptime (Py.rstrip_char "Z" (Py.remove_char "T" published)) = None ->
           Gdelt.save_to_db strptime
             (pre ++ Gdelt.Article (Some url) t (Some published) :: post) s
           = (Exc ValueError, s1)).
Proof.
  intros strptime pre s s1 Hpre. unfold Gdelt.save_to_db in *. split.
  - intros t d post. now rewrite for_each_app, Hpre.
  - intros url t published post Ht Hp. rewrite for_each_app, Hpre.
    cbn [for_each]. unfold bind at 1, Gdelt.save_article. run_db. rewrite Ht.
    run_db. now rewrite Hp.
Qed.

Lemma gdelt_bad_article_ends_batch_witness :
  Gdelt.save_to_db strict_noon
    ([apple_article] ++ Gdelt.Article None (Some "Nvidia tops estimates") None
                     :: [apple_article_tracked]) empty_store
  = (Exc KeyError, snd (Gdelt.save_to_db strict_noon [apple_article] empty_store))
  /\ Gdelt.save_to_db strict_noon
       ([apple_article] ++ Gdelt.Article (Some "https://example.com/x") None (Some "yesterday")
                        :: [apple_article_tracked]) empty_store
     = (Exc ValueError, snd (Gdelt.save_to_db strict_noon [apple_article] empty_store)).
Proof.
  assert (Hpre : Gdelt.save_to_db strict_noon [apple_article] empty_store
                 = (Val tt, snd (Gdelt.save_to_db strict_noon [apple_article] empty_store)))
    by (vm_compute; reflexivity).
  destruct (gdelt_bad_article_ends_batch strict_noon [apple_article] empty_store _ Hpre)
    as [Hkey Hvalue].
  split; [apply Hkey | apply Hvalue; reflexivity].
Defined.

(* ===================================================================== *)
(** * The crawl of the global-news fetcher *)
(* ===================================================================== *)

Section CrawlFacts.
Variable get : nat -> Gdelt.request.

Lemma fetch_loop_more_fuel fuel k page c r :
  Gdelt.fetch_loop fuel get page c = Some r ->
  Gdelt.fetch_loop (fuel + k) get page c = Some r.
Proof.
  revert page c. induction fuel as [|fuel IH]; intros page c; [discriminate|].
  cbn [Nat.add]. rewrite !fetch_loop_step. cbv zeta.
  destruct (get page) as [e | code e | resp]; [tauto | tauto |].
  destruct (negb (Gdelt.status resp =? 200)%Z); [tauto|].
  destruct (List.length _ <=? 250)%nat; [tauto | apply IH].
Qed.

Lemma fetch_loop_shape fuel page c r :
  Gdelt.fetch_loop fuel get page c = Some (Val r) ->
  exists n,
    n < fuel
    /\ Gdelt.requested r = (Gdelt.requested c ++ List.seq page (S n))%list
    /\ Gdelt.all_articles r
       = (Gdelt.all_articles c ++ List.flat_map (gdelt_page_rows get) (List.seq page (S n)))%list
    /\ (forall p, page <= p < page + n -> gdelt_last_page get p = false)
    /\ gdelt_last_page get (page + n) = true
    /\ (forall p, page <= p <= page + n -> gdelt_page_raises get p = None).
Proof.
  revert page c. induction fuel as [|fuel IH]; intros page c; [discriminate|].
  rewrite fetch_loop_step. cbv zeta.
  destruct (get page) as [e | code e | resp] eqn:Hget; [discriminate | |].
  { destruct (negb (code =? 200)%Z) eqn:Hstatus; [|discriminate].
    intros H. injection H as <-. exists 0.
    cbn [List.seq List.flat_map Gdelt.requested Gdelt.all_articles].
    unfold gdelt_page_rows, gdelt_last_page, gdelt_page_raises.
    rewrite Nat.add_0_r, Hget, Hstatus. cbn [app]. rewrite app_nil_r.
    repeat split; try lia.
    intros p Hp. assert (p = page) as -> by lia. rewrite Hget.
    apply negb_true_iff in Hstatus. now rewrite Hstatus. }
  destruct (negb (Gdelt.status resp =? 200)%Z) eqn:Hstatus.
  { intros H. injection H as <-. exists 0.
    cbn [List.seq List.flat_map Gdelt.requested Gdelt.all_articles].
    unfold gdelt_page_rows, gdelt_last_page, gdelt_page_raises.
    rewrite Nat.add_0_r, Hget, Hstatus.
    apply negb_true_iff in Hstatus. rewrite Hstatus. cbn [negb orb app].
    rewrite app_nil_r. repeat split; try lia.
    intros p Hp. assert (p = page) as -> by lia. now rewrite Hget. }
  destruct (List.length _ <=? 250)%nat eqn:Hlen.
  { intros H. injection H as <-. exists 0.
    cbn [List.seq List.flat_map Gdelt.requested Gdelt.all_articles].
    unfold gdelt_page_rows, gdelt_last_page, gdelt_page_raises.
    rewrite Nat.add_0_r, Hget, Hlen.
    apply negb_false_iff in Hstatus. rewrite Hstatus. cbn [negb orb].
    rewrite app_nil_r. repeat split; try lia.
    intros p Hp. assert (p = page) as -> by lia. now rewrite Hget. }
  intros H. apply IH in H as (n & Hn & Hreq & Hall & Hfull & Hlast & Hraise).
  cbn [Gdelt.requested Gdelt.all_articles] in Hreq, Hall.
  exists (S n). split; [lia|].
  split; [rewrite Hreq, <- app_assoc; reflexivity|].
  split.
  - rewrite Hall, <- app_assoc. f_equal.
    change (List.seq page (S (S n))) with (page :: List.seq (S page) (S n)).
    cbn [List.flat_map]. f_equal.
    unfold gdelt_page_rows. rewrite Hget.
    apply negb_false_iff in Hstatus. now rewrite Hstatus.
  - split; [|split].
    + intros p Hp. destruct (Nat.eq_dec p page) as [-> | Hne].
      * unfold gdelt_last_page. now rewrite Hget, Hstatus, Hlen.
      * apply Hfull. lia.
    + now replace (page + S n) with (S page + n) by lia.
    + intros p Hp. destruct (Nat.eq_dec p page) as [-> | Hne].
      * unfold gdelt_page_raises. now rewrite Hget.
      * apply Hraise. lia.
Qed.

(** The loop is over at the first page that ends the crawl, by a
    [break] or by an exception. *)
Lemma fetch_loop_ends p0 :
  gdelt_last_page get p0 = true \/ gdelt_page_raises get p0 <> None ->
  forall fuel page c,
    page <= p0 < page + fuel ->
    exists r, Gdelt.fetch_loop fuel get page c = Some r.
Proof.
  intros Hend. induction fuel as [|fuel IH]; intros page c Hp; [lia|].
  rewrite fetch_loop_step. cbv zeta.
  destruct (get page) as [e | code e | resp] eqn:Hget; [eauto | |].
  { destruct (negb (code =? 200)%Z); eauto. }
  destruct (negb (Gdelt.status resp =? 200)%Z) eqn:Hstatus; [eauto|].
  destruct (List.length _ <=? 250)%nat eqn:Hlen; [eauto|].
  apply IH. destruct (Nat.eq_dec p0 page) as [-> | Hne]; [|lia].
  unfold gdelt_last_page, gdelt_page_raises in Hend.
  rewrite Hget, Hstatus, Hlen in Hend. destruct Hend as [Hend | Hend]; [discriminate | congruence].
Qed.

(** It returns when no page up to there raises. *)
Lemma fetch_loop_returns p0 :
  gdelt_last_page get p0 = true ->
  forall fuel page c,
    page <= p0 < page + fuel ->
    (forall p, page <= p <= p0 -> gdelt_page_raises get p = None) ->
    exists r, Gdelt.fetch_loop fuel get page c = Some (Val r).
Proof.
  intros Hlast. induction fuel as [|fuel IH]; intros page c Hp Hraise; [lia|].
  pose proof (Hraise page ltac:(lia)) as Hhere. unfold gdelt_page_raises in Hhere.
  rewrite fetch_loop_step. cbv zeta.
  destruct (get page) as [e | code e | resp] eqn:Hget; [discriminate | |].
  { destruct (code =? 200)%Z; [discriminate | cbn [negb]; eauto]. }
  destruct (negb (Gdelt.status resp =? 200)%Z) eqn:Hstatus; [eauto|].
  destruct (List.length _ <=? 250)%nat eqn:Hlen; [eauto|].
  assert (Hne : p0 <> page).
  { intros ->. unfold gdelt_last_page in Hlast.
    rewrite Hget, Hstatus, Hlen in Hlast. discriminate. }
  apply IH; [lia|]. intros p Hp'. apply Hraise. lia.
Qed.

(** It raises what the first page that ends it raises. *)
Lemma fetch_loop_raises p0 e :
  gdelt_page_raises get p0 = Some e ->
  forall fuel page c,
    page <= p0 < page + fuel ->
    (forall p, page <= p < p0 ->
               gdelt_last_page get p = false /\ gdelt_page_raises get p = None) ->
    Gdelt.fetch_loop fuel get page c = Some (Exc e).
Proof.
  intros Hraise. induction fuel as [|fuel IH]; intros page c Hp Hbefore; [lia|].
  rewrite fetch_loop_step. cbv zeta.
  destruct (Nat.eq_dec p0 page) as [-> | Hne].
  - unfold gdelt_page_raises in Hraise.
    destruct (get page) as [e0 | code e0 | resp]; [congruence | | discriminate].
    destruct (code =? 200)%Z; [cbn [negb]; congruence | discriminate].
  - destruct (Hbefore page ltac:(lia)) as [Hlast Hnone].
    unfold gdelt_last_page in Hlast. unfold gdelt_page_raises in Hnone.
    destruct (get page) as [e0 | code e0 | resp]; [discriminate | |].
    { destruct (code =? 200)%Z; discriminate. }
    apply orb_false_iff in Hlast as [Hstatus Hlen]. rewrite Hstatus, Hlen.
    apply IH; [lia|]. intros p Hp'. apply Hbefore. lia.
Qed.

End CrawlFacts.

(** X11: what a crawl returns.  The pages asked for are 1, 2, ..., n in
    this order, n being the first page that is not a 200 or has at most
    250 articles, and no request up to there raises; the result is the
    articles of the 200 answers among them, in page order (a failed page
    contributes nothing and the articles gathered before it are kept);
    and it is the same for any larger bound on the number of turns of the
    loop. *)
Theorem fetch_news_crawls_pages_in_order :
  forall get fuel c,
    Gdelt.fetch_news fuel get = Some (Val c) ->
    exists n,
      n < fuel
      /\ Gdelt.requested c = List.seq 1 (S n)
      /\ Gdelt.all_articles c = List.flat_map (gdelt_page_rows get) (List.seq 1 (S n))
      /\ (forall p, 1 <= p <= n -> gdelt_last_page get p = false)
      /\ gdelt_last_page get (S n) = true
      /\ (forall p, 1 <= p <= S n -> gdelt_page_raises get p = None)
      /\ (forall k, Gdelt.fetch_news (fuel + k) get = Some (Val c)).
Proof.
  intros get fuel c H. unfold Gdelt.fetch_news in *.
  destruct (fetch_loop_shape get _ _ _ _ H) as (n & Hn & Hreq & Hall & Hfull & Hlast & Hraise).
  exists n. cbn [Gdelt.requested Gdelt.all_articles app] in Hreq, Hall.
  repeat split; try assumption.
  - intros p Hp. apply Hfull. lia.
  - intros k. now apply fetch_loop_more_fuel.
Qed.

Lemma fetch_news_crawls_pages_in_order_witness :
  exists n,
    n < 3
    /\ Gdelt.requested (Gdelt.Crawl [1] (List.repeat apple_article 250)) = List.seq 1 (S n)
    /\ Gdelt.all_articles (Gdelt.Crawl [1] (List.repeat apple_article 250))
       = List.flat_map (gdelt_page_rows full_pages) (List.seq 1 (S n))
    /\ (forall p, 1 <= p <= n -> gdelt_last_page full_pages p = false)
    /\ gdelt_last_page full_pages (S n) = true
    /\ (forall p, 1 <= p <= S n -> gdelt_page_raises full_pages p = None)
    /\ (forall k, Gdelt.fetch_news (3 + k) full_pages
                  = Some (Val (Gdelt.Crawl [1] (List.repeat apple_article 250)))).
Proof.
  apply (fetch_news_crawls_pages_in_order full_pages 3). reflexivity.
Defined.

(** X12: how a crawl ends.  At the first page [p0] that either is not a
    200 or has at most 250 articles, or whose request or body raises,
    the loop is over after [p0] turns: [fetch_news] returns when no
    request up to [p0] raises, and it raises the exception of page [p0]
    when that page raises and the pages before it are full pages. *)
Theorem fetch_news_returns_or_raises :
  forall get p0,
    1 <= p0 ->
    (gdelt_last_page get p0 = true \/ gdelt_page_raises get p0 <> None ->
     exists r, Gdelt.fetch_news p0 get = Some r)
    /\ (gdelt_last_page get p0 = true ->
        (forall p, 1 <= p <= p0 -> gdelt_page_raises get p = None) ->
        exists c, Gdelt.fetch_news p0 get = Some (Val c))
    /\ (forall e,
           gdelt_page_raises get p0 = Some e ->
           (forall p, 1 <= p < p0 ->
                      gdelt_last_page get p = false /\ gdelt_page_raises get p = None) ->
           Gdelt.fetch_news p0 get = Some (Exc e)).
Proof.
  intros get p0 Hp. unfold Gdelt.fetch_news. repeat apply conj.
  - intros Hend. apply (fetch_loop_ends get p0 Hend). lia.
  - intros Hlast Hraise. apply (fetch_loop_returns get p0 Hlast); [lia | assumption].
  - intros e Hraise Hbefore. apply (fetch_loop_raises get p0 e Hraise); [lia | assumption].
Qed.

Lemma fetch_news_returns_or_raises_witness :
  (exists c, Gdelt.fetch_news 1 full_pages = Some (Val c))
  /\ Gdelt.fetch_news 2 second_page_unreadable = Some (Exc OtherError).
Proof.
  split.
  - apply (fetch_news_returns_or_raises full_pages 1); [lia | reflexivity |].
    intros p Hp. reflexivity.
  - apply (fetch_news_returns_or_raises second_page_unreadable 2); [lia | reflexivity |].
    intros p Hp. assert (p = 1) as -> by lia. split; reflexivity.
Defined.

(* ===================================================================== *)
(** * More on the watch-list matcher *)
(* ===================================================================== *)

Section MatcherMore.

Lemma append_assoc (a b c : string) : (a ++ b) ++ c = a ++ b ++ c.
Proof. induction a as [|x a IH]; [reflexivity|]. now rewrite !append_cons, IH. Qed.

Lemma occurs_in_longer sub pre t post :
  occurs_ignoring_case sub t -> occurs_ignoring_case sub (pre ++ t ++ post).
Proof.
  intros (p & mid & q & -> & Heq). exists (pre ++ p), mid, (q ++ post).
  split; [|exact Heq]. now rewrite !append_assoc.
Qed.

Lemma mentions_sublist (names : watchlist) text :
  sublist (mentions names text) (List.map snd names).
Proof.
  unfold mentions. induction names as [|nt names IH]; cbn [List.filter List.map];
    [constructor|].
  destruct (entry_matches text nt); cbn [List.map]; now constructor.
Qed.

Lemma str_in_empty s : Py.str_in "" s = true.
Proof. now destruct s. Qed.

Lemma str_in_of_empty sub : sub <> "" -> Py.str_in sub "" = false.
Proof. destruct sub; [congruence | reflexivity]. Qed.

Lemma lower_nonempty s : s <> "" -> Py.lower s <> "".
Proof. destruct s; [congruence | discriminate]. Qed.

End MatcherMore.

(** X13: matching ignores the case of the text: two texts that are equal
    up to the case of their ASCII letters get the same list of tickers,
    for any watch-list. *)
Theorem mentions_ignore_case :
  forall (names : watchlist) (t t' : string),
    equal_ignoring_case t t' -> mentions names t = mentions names t'.
Proof.
  intros names t t' Heq. apply lower_eq_iff in Heq.
  unfold mentions. f_equal. apply filter_ext. intros [name tk].
  unfold entry_matches. now rewrite Heq.
Qed.

Lemma mentions_ignore_case_witness :
  mentions Gdelt.COMPANY_NAMES "NVIDIA and apple" = mentions Gdelt.COMPANY_NAMES "Nvidia And Apple".
Proof.
  apply mentions_ignore_case. apply lower_eq_iff. reflexivity.
Defined.

(** X14: on ASCII text and an ASCII watch-list (where [lower] maps each
    character by itself), a match is never lost by adding text around:
    every ticker matched in a text is matched in any text that contains
    it. *)
Theorem mentions_survive_embedding :
  forall (names : watchlist) (pre t post tk : string),
    watchlist_is_ascii names = true ->
    is_ascii pre = true -> is_ascii t = true -> is_ascii post = true ->
    In tk (mentions names t) -> In tk (mentions names (pre ++ t ++ post)).
Proof.
  intros names pre t post tk _ _ _ _ Hin.
  apply mentions_iff in Hin as (name & Hname & Hocc).
  apply mentions_iff. exists name. split; [exact Hname|].
  destruct Hocc as [Hocc | Hocc]; [left | right]; now apply occurs_in_longer.
Qed.

Lemma mentions_survive_embedding_witness :
  In "BTC" (mentions Twitter.COMPANY_NAMES ("Breaking: " ++ "bitcoin" ++ " slides again")).
Proof.
  apply (mentions_survive_embedding Twitter.COMPANY_NAMES "Breaking: " "bitcoin"
           " slides again" "BTC" eq_refl eq_refl eq_refl eq_refl).
  vm_compute. in_list.
Defined.

(** X15: the matcher returns tickers of the watch-list, in the order of
    the watch-list and each entry at most once: the result is a sub-list
    of the watch-list's tickers, so no longer than the watch-list, and
    without repetition when the tickers of the watch-list are distinct. *)
Theorem mentions_sublist_of_watchlist :
  forall (names : watchlist) (text : string),
    sublist (mentions names text) (List.map snd names)
    /\ List.length (mentions names text) <= List.length names
    /\ (NoDup (List.map snd names) -> NoDup (mentions names text)).
Proof.
  intros names text. split; [apply mentions_sublist|]. split.
  - rewrite <- (length_map snd names). apply sublist_length, mentions_sublist.
  - apply NoDup_mentions.
Qed.

Lemma mentions_sublist_of_watchlist_witness :
  NoDup (mentions Rss.COMPANY_NAMES "XRP and Bitcoin rally, Apple flat").
Proof.
  apply mentions_sublist_of_watchlist. apply watchlist_tickers_distinct.
Defined.

(** X16: empty strings.  An entry whose name or ticker is the empty
    string matches every text, the empty string being in any string; and
    when no entry has an empty name or ticker, the empty text matches
    nothing. *)
Theorem mentions_and_empty_strings :
  forall (names : watchlist),
    (forall name tk text,
        In (name, tk) names -> name = "" \/ tk = "" -> In tk (mentions names text))
    /\ ((forall name tk, In (name, tk) names -> name <> "" /\ tk <> "") ->
        mentions names "" = []).
Proof.
  intros names. split.
  - intros name tk text Hin Hempty. unfold mentions.
    apply in_map_iff. exists (name, tk). split; [reflexivity|].
    apply filter_In. split; [exact Hin|].
    unfold entry_matches. cbn [fst snd].
    destruct Hempty as [-> | ->]; cbn [Py.lower]; rewrite str_in_empty;
      [reflexivity | apply orb_true_r].
  - intros Hnonempty. unfold mentions.
    induction names as [|[name tk] names IH]; [reflexivity|].
    cbn [List.filter]. unfold entry_matches at 1. cbn [fst snd Py.lower].
    destruct (Hnonempty name tk (or_introl eq_refl)) as [Hn Ht].
    rewrite !str_in_of_empty by now apply lower_nonempty.
    cbn [orb]. apply IH. intros n t Hin. apply Hnonempty. now right.
Qed.

Lemma mentions_and_empty_strings_witness :
  In "ETH" (mentions [("", "ETH")] "nothing about it here")
  /\ mentions Gdelt.COMPANY_NAMES "" = [].
Proof.
  split.
  - apply (proj1 (mentions_and_empty_strings [("", "ETH")]) ""); [in_list | now left].
  - apply (proj2 (mentions_and_empty_strings Gdelt.COMPANY_NAMES)).
    intros name tk Hin. cbn [Gdelt.COMPANY_NAMES In] in Hin.
    repeat (destruct Hin as [Hin | Hin]; [injection Hin as <- <-; split; discriminate|]).
    destruct Hin.
Defined.

(* ===================================================================== *)
(** * More on the social stream *)
(* ===================================================================== *)

Section RedditMore.

Lemma letters_word n last s w l rest :
  Reddit.letters n last s = Some (w, l, rest) ->
  String.length w = n /\ all_upper w = true.
Proof.
  revert last s w l rest. induction n as [|n IH]; intros last s w l rest H; cbn in H.
  - injection H as <- _ _. now split.
  - destruct s as [|c s]; [discriminate|].
    destruct (Py.is_upper c) eqn:Hc; [|discriminate].
    destruct (Reddit.letters n (Some c) s) as [[[w' l'] rest']|] eqn:E; [|discriminate].
    injection H as <- _ _. apply IH in E as [Hlen Hup].
    cbn [String.length all_upper]. now rewrite Hlen, Hc, Hup.
Qed.

Lemma match_len_word n s w :
  Reddit.match_len n s = Some w -> String.length w = n /\ all_upper w = true.
Proof.
  unfold Reddit.match_len.
  destruct (Reddit.letters n None s) as [[[w' l] rest]|] eqn:E; [|discriminate].
  destruct (Reddit.boundary l (Reddit.head rest)); [|discriminate].
  intros H. injection H as <-. eapply letters_word; eassumption.
Qed.

Lemma match_here_word s w :
  Reddit.match_here s = Some w -> 2 <= String.length w <= 5 /\ all_upper w = true.
Proof.
  unfold Reddit.match_here. intros H.
  destruct (Reddit.match_len 5 s) eqn:E5;
    [injection H as <-; apply match_len_word in E5 as [-> ?]; split; [lia | assumption]|].
  destruct (Reddit.match_len 4 s) eqn:E4;
    [injection H as <-; apply match_len_word in E4 as [-> ?]; split; [lia | assumption]|].
  destruct (Reddit.match_len 3 s) eqn:E3;
    [injection H as <-; apply match_len_word in E3 as [-> ?]; split; [lia | assumption]|].
  apply match_len_word in H as [-> ?]. split; [lia | assumption].
Qed.

Lemma findall_from_words prev skip s w :
  In w (Reddit.findall_from prev skip s) ->
  2 <= String.length w <= 5 /\ all_upper w = true.
Proof.
  revert prev skip. induction s as [|c s IH]; intros prev skip H; cbn [Reddit.findall_from] in H;
    [contradiction|].
  destruct skip as [|k]; [|eauto].
  destruct (Reddit.boundary prev (Some c)); [|eauto].
  destruct (Reddit.match_here (String c s)) as [w'|] eqn:E; [|eauto].
  destruct H as [<- | H]; [eapply match_here_word; eassumption | eauto].
Qed.

Lemma is_lower_range c : Py.is_lower c = true <-> 97 <= nat_of_ascii c <= 122.
Proof. unfold Py.is_lower. rewrite andb_true_iff, !Nat.leb_le. tauto. Qed.

Lemma upper_char_of_lower c :
  Py.is_upper c = true ->
  Py.upper_char (ascii_of_nat (nat_of_ascii c + 32)) = c.
Proof.
  intros Hc. apply is_upper_range in Hc.
  assert (Hn : nat_of_ascii (ascii_of_nat (nat_of_ascii c + 32)) = nat_of_ascii c + 32)
    by (apply nat_ascii_embedding; lia).
  unfold Py.upper_char.
  replace (Py.is_lower (ascii_of_nat (nat_of_ascii c + 32))) with true
    by (symmetry; apply is_lower_range; lia).
  rewrite Hn. replace (nat_of_ascii c + 32 - 32) with (nat_of_ascii c) by lia.
  apply ascii_nat_embedding.
Qed.

Lemma upper_char_of_upper c : Py.is_upper c = true -> Py.upper_char c = c.
Proof.
  intros Hc. apply is_upper_range in Hc. unfold Py.upper_char.
  replace (Py.is_lower c) with false; [reflexivity|].
  symmetry. unfold Py.is_lower. apply andb_false_iff. left. apply Nat.leb_gt. lia.
Qed.

Lemma upper_char_same a b : same_ignoring_case a b -> Py.upper_char a = Py.upper_char b.
Proof.
  intros [-> | [[Ha Hb] | [Hb Ha]]]; [reflexivity| |].
  - rewrite (upper_char_of_upper a Ha).
    replace b with (ascii_of_nat (nat_of_ascii a + 32))
      by (rewrite <- Hb; apply ascii_nat_embedding).
    symmetry. now apply upper_char_of_lower.
  - rewrite (upper_char_of_upper b Hb).
    replace a with (ascii_of_nat (nat_of_ascii b + 32))
      by (rewrite <- Ha; apply ascii_nat_embedding).
    now apply upper_char_of_lower.
Qed.

Lemma upper_same s t : equal_ignoring_case s t -> Py.upper s = Py.upper t.
Proof.
  induction 1 as [|a b s t Hab _ IH]; cbn [Py.upper]; [reflexivity|].
  now rewrite (upper_char_same a b Hab), IH.
Qed.

Lemma upper_app s t : Py.upper (s ++ t) = Py.upper s ++ Py.upper t.
Proof.
  induction s as [|a s IH]; [reflexivity|].
  rewrite append_cons. cbn [Py.upper]. now rewrite IH, append_cons.
Qed.

Lemma collect_firstn max_results seen posts :
  Reddit.collect max_results seen posts
  = List.map Reddit.row_of
             (List.firstn (Z.to_nat (Z.max 1 (max_results - seen))) posts).
Proof.
  revert seen. induction posts as [|p posts IH]; intros seen; cbn [Reddit.collect].
  - now rewrite firstn_nil.
  - destruct (Z.geb_spec (seen + 1) max_results) as [Hge | Hlt].
    + replace (Z.to_nat (Z.max 1 (max_results - seen))) with 1 by lia.
      reflexivity.
    + replace (Z.to_nat (Z.max 1 (max_results - seen)))
        with (S (Z.to_nat (Z.max 1 (max_results - (seen + 1))))) by lia.
      cbn [List.firstn List.map]. now rewrite IH.
Qed.

End RedditMore.

(** X17: every word the social-stream matcher extracts from a post is
    made of upper-case ASCII letters and has 2 to 5 of them. *)
Theorem findall_words_are_short_and_upper :
  forall (s w : string),
    In w (Reddit.findall s) -> 2 <= String.length w <= 5 /\ all_upper w = true.
Proof. intros s w. apply findall_from_words. Qed.

Lemma findall_words_are_short_and_upper_witness :
  2 <= String.length "NVDA" <= 5 /\ all_upper "NVDA" = true.
Proof.
  apply (findall_words_are_short_and_upper (Py.upper "is nvda a buy?")).
  vm_compute. in_list.
Defined.

(** X18: the social-stream matcher ignores case: two posts whose titles
    and bodies are equal up to the case of their ASCII letters get the
    same tickers. *)
Theorem reddit_matched_ignores_case :
  forall (t t' b b' : string),
    equal_ignoring_case t t' -> equal_ignoring_case b b' ->
    Reddit.matched t b = Reddit.matched t' b'.
Proof.
  intros t t' b b' Ht Hb. unfold Reddit.matched. cbv zeta.
  rewrite !upper_app. now rewrite (upper_same t t' Ht), (upper_same b b' Hb).
Qed.

Lemma reddit_matched_ignores_case_witness :
  Reddit.matched "aapl to the moon" "Sold my msft" = Reddit.matched "AAPL to the MOON" "sold my MSFT".
Proof.
  apply reddit_matched_ignores_case; apply lower_eq_iff; reflexivity.
Defined.

(** X19: [stream_posts(max_results)] returns the rows of the first
    [max(1, max_results)] posts of the stream, in order: the limit is
    tested after a post is taken, so one post is taken even when the
    limit is zero or negative. *)
Theorem stream_posts_takes_first_posts :
  forall (max_results : Z) (posts : list Reddit.post),
    Reddit.stream_posts max_results posts
    = List.map Reddit.row_of (List.firstn (Z.to_nat (Z.max 1 max_results)) posts).
Proof.
  intros max_results posts. unfold Reddit.stream_posts.
  rewrite collect_firstn. now rewrite Z.sub_0_r.
Qed.

(* ===================================================================== *)
(** * More on the microblog loop and on the dates of the global news *)
(* ===================================================================== *)

Section LoopFacts.
Variable strptime : string -> option datetime.
Variable fromtimestamp : Z -> Z.

Lemma poll_loop_progress interval turns p s p' s' :
  Twitter.poll_loop strptime fromtimestamp interval turns p s = (Val p', s') ->
  List.length (Twitter.sleeps p') = List.length (Twitter.sleeps p) + List.length turns
  /\ List.length (news_articles s') + Twitter.stored p
     = List.length (news_articles s) + Twitter.stored p'
  /\ ((1 <= interval)%Z ->
      Forall (fun w => (1 <= w)%Z) (Twitter.sleeps p) ->
      Forall (fun w => (1 <= w)%Z) (Twitter.sleeps p')).
Proof.
  revert p s. induction turns as [|t turns IH]; intros p s; cbn [Twitter.poll_loop].
  - unfold ret. intros H. injection H as <- <-. rewrite Nat.add_0_r.
    split; [reflexivity|]. split; [reflexivity | auto].
  - destruct (Twitter.fetched t) as [[|tw tweets]|e].
    + intros H. apply IH in H as (Hlen & Hrows & Hsleeps).
      cbn [Twitter.sleeps Twitter.stored] in *. rewrite length_app in Hlen.
      cbn [List.length] in *. repeat split; [lia | lia |].
      intros Hi Hall. apply Hsleeps; [exact Hi|].
      apply Forall_app. split; [exact Hall | now constructor].
    + unfold bind.
      destruct (Twitter.save_to_db strptime (tw :: tweets) s) as [[n|e] s1] eqn:E;
        [|discriminate].
      intros H. apply IH in H as (Hlen & Hrows & Hsleeps).
      apply twitter_added_is_rows_added in E as [Hn _].
      cbn [Twitter.sleeps Twitter.stored] in *. rewrite length_app in Hlen.
      cbn [List.length] in *. repeat split; [lia | lia |].
      intros Hi Hall. apply Hsleeps; [exact Hi|].
      apply Forall_app. split; [exact Hall | now constructor].
    + destruct e; try discriminate.
      intros H. apply IH in H as (Hlen & Hrows & Hsleeps).
      cbn [Twitter.sleeps Twitter.stored] in *. rewrite length_app in Hlen.
      cbn [List.length] in *. repeat split; [lia | lia |].
      intros Hi Hall. apply Hsleeps; [exact Hi|].
      apply Forall_app. split; [exact Hall|].
      constructor; [apply backoff_at_least_one | constructor].
Qed.

End LoopFacts.

Section DateFacts.

Lemma has_char_app c a b : has_char c (a ++ b) = has_char c a || has_char c b.
Proof.
  induction a as [|x a IH]; [reflexivity|].
  rewrite append_cons. cbn [has_char]. now rewrite IH, orb_assoc.
Qed.

Lemma remove_char_app c a b :
  Py.remove_char c (a ++ b) = Py.remove_char c a ++ Py.remove_char c b.
Proof.
  induction a as [|x a IH]; [reflexivity|].
  rewrite append_cons. cbn [Py.remove_char]. rewrite IH.
  destruct (Ascii.eqb x c); [reflexivity | now rewrite append_cons].
Qed.

Lemma remove_char_absent c s : has_char c s = false -> Py.remove_char c s = s.
Proof.
  induction s as [|x s IH]; cbn [has_char Py.remove_char]; [reflexivity|].
  intros H. apply orb_false_iff in H as [Hx Hs]. now rewrite Hx, IH.
Qed.

Lemma has_char_remove_char c s : has_char c (Py.remove_char c s) = false.
Proof.
  induction s as [|x s IH]; cbn [Py.remove_char]; [reflexivity|].
  destruct (Ascii.eqb x c) eqn:Hx; [exact IH|]. cbn [has_char]. now rewrite Hx, IH.
Qed.

Lemma rstrip_char_absent c s : has_char c s = false -> Py.rstrip_char c s = s.
Proof.
  induction s as [|x s IH]; cbn [has_char Py.rstrip_char]; [reflexivity|].
  intros H. apply orb_false_iff in H as [Hx Hs]. rewrite (IH Hs), Hx.
  now destruct s.
Qed.

Lemma rstrip_char_trailing c s :
  Py.rstrip_char c (s ++ String c "") = Py.rstrip_char c s.
Proof.
  induction s as [|x s IH].
  - change ("" ++ String c "") with (String c ""). cbn [Py.rstrip_char].
    now rewrite Ascii.eqb_refl.
  - rewrite append_cons. cbn [Py.rstrip_char]. now rewrite IH.
Qed.

Lemma has_char_rstrip_char c c' s :
  has_char c' s = false -> has_char c' (Py.rstrip_char c s) = false.
Proof.
  induction s as [|x s IH]; cbn [has_char Py.rstrip_char]; [reflexivity|].
  intros H. apply orb_false_iff in H as [Hx Hs]. specialize (IH Hs).
  destruct (Py.rstrip_char c s) as [|y r].
  - destruct (Ascii.eqb x c); [reflexivity|]. cbn [has_char]. now rewrite Hx.
  - cbn [has_char] in *. now rewrite Hx, IH.
Qed.

End DateFacts.

(** X20: a run of the microblog loop that is still going has slept once
    in every turn, a rate-limited turn included, never less than a second
    when the interval is at least a second; and its running total is the
    number of rows it added to [news_articles]. *)
Theorem poll_twitter_sleeps_every_turn :
  forall strptime fromtimestamp interval turns s p s',
    Twitter.poll_twitter strptime fromtimestamp interval turns s = (Val p, s') ->
    List.length (Twitter.sleeps p) = List.length turns
    /\ List.length (news_articles s') = List.length (news_articles s) + Twitter.stored p
    /\ ((1 <= interval)%Z -> Forall (fun w => (1 <= w)%Z) (Twitter.sleeps p)).
Proof.
  intros strptime fromtimestamp interval turns s p s' H. unfold Twitter.poll_twitter in H.
  apply poll_loop_progress in H as (Hlen & Hrows & Hsleeps).
  cbn [Twitter.sleeps Twitter.stored List.length] in *.
  repeat split; [lia | lia |]. intros Hi. apply Hsleeps; [exact Hi | constructor].
Qed.

Lemma poll_twitter_sleeps_every_turn_witness :
  List.length (Twitter.sleeps (Twitter.Progress 1 [59; 1; 20]%Z)) = 3
  /\ Forall (fun w => (1 <= w)%Z) (Twitter.sleeps (Twitter.Progress 1 [59; 1; 20]%Z)).
Proof.
  destruct (poll_twitter_sleeps_every_turn noon utc_clock 20
              [Twitter.Turn (Exc (TooManyRequests 1752494460)) 1752494400500000;
               Twitter.Turn (Exc (TooManyRequests 1752494460)) 1752494463000000;
               Twitter.Turn (Val [bitcoin_tweet]) 1752494464000000] empty_store
              (Twitter.Progress 1 [59; 1; 20]%Z)
              (Store [ArticleRow (Twitter.hash_id "1944926152071495802")
                                 "Bitcoin is not done yet" 1752494400%Z]
                     [MentionRow (Twitter.hash_id "1944926152071495802") "BTC"]))
    as (Hlen & _ & Hsleeps); [vm_compute; reflexivity|].
  split; [exact Hlen | apply Hsleeps; lia].
Defined.

(** X21: what [strptime] is given.  For a date and a time that hold no
    [T] and no [Z] (digits, say), the [seendate] written with the [T]
    separator and the trailing [Z], with the [Z] alone, or bare, is
    cleaned to the date followed by the time; and a cleaned [seendate]
    never holds a [T]. *)
Theorem gdelt_seendate_is_cleaned :
  forall d t : string,
    has_char "T" (d ++ t) = false -> has_char "Z" (d ++ t) = false ->
    Py.rstrip_char "Z" (Py.remove_char "T" (d ++ "T" ++ t ++ "Z")) = d ++ t
    /\ Py.rstrip_char "Z" (Py.remove_char "T" (d ++ t ++ "Z")) = d ++ t
    /\ Py.rstrip_char "Z" (Py.remove_char "T" (d ++ t)) = d ++ t
    /\ forall published : string,
         has_char "T" (Py.rstrip_char "Z" (Py.remove_char "T" published)) = false.
Proof.
  intros d t HT HZ.
  assert (Hbare : Py.remove_char "T" (d ++ t) = d ++ t) by now apply remove_char_absent.
  assert (HdT : has_char "T" d = false /\ has_char "T" t = false)
    by (rewrite has_char_app in HT; now apply orb_false_iff in HT).
  destruct HdT as [HdT HtT].
  repeat split.
  - rewrite !remove_char_app, (remove_char_absent _ d HdT), (remove_char_absent _ t HtT).
    cbn [Py.remove_char Ascii.eqb Bool.eqb]. cbn.
    change (d ++ "" ++ t ++ "Z") with (d ++ t ++ "Z").
    rewrite <- append_assoc, rstrip_char_trailing. now apply rstrip_char_absent.
  - rewrite <- append_assoc, remove_char_app, Hbare. cbn [Py.remove_char]. cbn.
    rewrite rstrip_char_trailing. now apply rstrip_char_absent.
  - rewrite Hbare. now apply rstrip_char_absent.
  - intros published. apply has_char_rstrip_char, has_char_remove_char.
Qed.

Lemma gdelt_seendate_is_cleaned_witness :
  Py.rstrip_char "Z" (Py.remove_char "T" ("20250714" ++ "T" ++ "120000" ++ "Z"))
  = "20250714" ++ "120000".
Proof.
  apply (gdelt_seendate_is_cleaned "20250714" "120000"); reflexivity.
Defined.

(* ===================================================================== *)
(** * The search expressions *)
(* ===================================================================== *)

Section QueryFacts.

Lemma str_in_app_r sub pre s : Py.str_in sub s = true -> Py.str_in sub (pre ++ s) = true.
Proof.
  intros H. apply str_in_iff in H as (p & q & ->). apply str_in_iff.
  exists (pre ++ p), q. now rewrite append_assoc.
Qed.

Lemma str_in_app_l sub s post : Py.str_in sub s = true -> Py.str_in sub (s ++ post) = true.
Proof.
  intros H. apply str_in_iff in H as (p & q & ->). apply str_in_iff.
  exists p, (q ++ post). now rewrite !append_assoc.
Qed.

Lemma append_empty_r s : s ++ "" = s.
Proof. induction s as [|c s IH]; [reflexivity|]. now rewrite append_cons, IH. Qed.

Lemma str_in_refl s : Py.str_in s s = true.
Proof.
  apply str_in_iff. exists "", "".
  change ("" ++ s ++ "") with (s ++ ""). now rewrite append_empty_r.
Qed.

Lemma str_in_join sep x l : In x l -> Py.str_in x (Py.join sep l) = true.
Proof.
  induction l as [|y l IH]; [contradiction|].
  intros Hin. cbn [Py.join]. destruct l as [|z l].
  - destruct Hin as [-> | []]. apply str_in_refl.
  - destruct Hin as [-> | Hin].
    + apply str_in_app_l, str_in_refl.
    + apply str_in_app_r, str_in_app_r. now apply IH.
Qed.

End QueryFacts.

(** The expressions for the watch-lists of the notebooks, as the
    notebooks print them. *)
Example twitter_query_printed :
  Twitter.QUERY
  = Py.quoted "Google" ++ " OR " ++ Py.quoted "Apple" ++ " OR " ++ Py.quoted "Amazon"
    ++ " OR " ++ Py.quoted "Nvidia" ++ " OR " ++ Py.quoted "Microsoft" ++ " OR "
    ++ Py.quoted "Bitcoin" ++ " OR " ++ Py.quoted "Ripple".
Proof. reflexivity. Qed.

(** X22: the search expressions cover the watch-list: for any watch-list,
    every entity name occurs between double quotes in the expression sent
    to the global-news endpoint and in the one sent to the microblog
    search. *)
Theorem queries_quote_every_name :
  forall (names : watchlist) (name tk : string),
    In (name, tk) names ->
    Py.str_in (Py.quoted name) (Gdelt.query_of names) = true
    /\ Py.str_in (Py.quoted name) (Twitter.query_of names) = true.
Proof.
  intros names name tk Hin.
  assert (Hq : In (Py.quoted name) (List.map Py.quoted (List.map fst names))).
  { apply in_map. apply in_map_iff. now exists (name, tk). }
  split.
  - unfold Gdelt.query_of. apply str_in_app_r, str_in_app_l. now apply str_in_join.
  - unfold Twitter.query_of. now apply str_in_join.
Qed.

Lemma queries_quote_every_name_witness :
  Py.str_in (Py.quoted "Nvidia") (Gdelt.query_of Gdelt.COMPANY_NAMES) = true
  /\ Py.str_in (Py.quoted "Nvidia") (Twitter.query_of Gdelt.COMPANY_NAMES) = true.
Proof.
  apply (queries_quote_every_name Gdelt.COMPANY_NAMES "Nvidia" "NVDA"). in_list.
Defined.
